(** * IMAP STORE handler ([helpers/imap/on-store.js])

    A shallow embedding of [onStore]: flag normalisation, the per-message
    mutation state machine, the modification-sequence controller, the
    mailbox vocabulary manager and the lock / notifier protocol around the
    storage transaction, followed by the properties established for them.

    Conventions.
    - JavaScript strings are [string]s of 8-bit characters; [trim]
      removes the ASCII white space and [toLowerCase] folds the ASCII
      letters.
    - JavaScript numbers used as counters ([modseq], [modifyIndex], [uid],
      [unchangedSince]) are [Z]; truthiness of a number is [<> 0].
    - [undefined] is [None].
    - An array or a [Set] spread back into an array is a [list], in
      insertion order. *)

From Stdlib Require Import List String Ascii ZArith Bool Lia Arith.
Import ListNotations.
Local Open Scope string_scope.
Local Open Scope Z_scope.
Local Open Scope list_scope.

Set Implicit Arguments.

(* ------------------------------------------------------------------ *)
(** ** Strings: [String.prototype.trim] and [toLowerCase]              *)
(* ------------------------------------------------------------------ *)

Module JsString.

(** A flag is an IMAP atom or a system flag: a string of ASCII
    characters. On such strings the functions below are
    [String.prototype.trim] and [String.prototype.toLowerCase]. Beyond
    ASCII the two JavaScript functions do more (NO-BREAK SPACE and the
    other Unicode spaces are trimmed, other letters are folded), which
    is not modelled: [isASCII] marks the strings on which the model and
    JavaScript agree. *)
Fixpoint isASCII (s : string) : bool :=
  match s with
  | EmptyString => true
  | String c r => (nat_of_ascii c <? 128)%nat && isASCII r
  end.

(** White space and line terminators removed by [trim]
    (TAB, LF, VT, FF, CR, SP). *)
Definition isWhiteSpace (c : ascii) : bool :=
  let n := nat_of_ascii c in
  ((9 <=? n)%nat && (n <=? 13)%nat) || (n =? 32)%nat.

Fixpoint trimStart (s : string) : string :=
  match s with
  | EmptyString => EmptyString
  | String c r => if isWhiteSpace c then trimStart r else s
  end.

(** [trimEnd] keeps a character when it is not white space or when
    something survives to its right. *)
Fixpoint trimEnd (s : string) : string :=
  match s with
  | EmptyString => EmptyString
  | String c r =>
      match trimEnd r with
      | EmptyString => if isWhiteSpace c then EmptyString else String c EmptyString
      | r' => String c r'
      end
  end.

Definition trim (s : string) : string := trimEnd (trimStart s).

Definition lowerChar (c : ascii) : ascii :=
  let n := nat_of_ascii c in
  if ((65 <=? n)%nat && (n <=? 90)%nat)%bool then ascii_of_nat (n + 32) else c.

Fixpoint toLowerCase (s : string) : string :=
  match s with
  | EmptyString => EmptyString
  | String c r => String (lowerChar c) (toLowerCase r)
  end.

End JsString.

(** [function getFlag(f) { return f.trim().toLowerCase(); }] *)
Definition getFlag (f : string) : string :=
  JsString.toLowerCase (JsString.trim f).

(* ------------------------------------------------------------------ *)
(** ** Arrays and [Set]                                                *)
(* ------------------------------------------------------------------ *)

(** [Array.prototype.includes] on strings. *)
Fixpoint includes (l : list string) (x : string) : bool :=
  match l with
  | [] => false
  | y :: r => String.eqb y x || includes r x
  end.

(** [[...new Set(l)]]: the first occurrence of every element, in order. *)
Fixpoint uniq (l : list string) : list string :=
  match l with
  | [] => []
  | x :: r => x :: filter (fun y => negb (String.eqb x y)) (uniq r)
  end.

(** [Array.prototype.includes] on numbers (uids). *)
Definition includesZ (l : list Z) (x : Z) : bool :=
  existsb (Z.eqb x) l.

(** Truthiness of a JavaScript number. *)
Definition truthy (n : Z) : bool := negb (n =? 0).

Definition truthyOpt (o : option Z) : bool :=
  match o with
  | Some n => truthy n
  | None => false
  end.

(* ------------------------------------------------------------------ *)
(** ** Data model                                                      *)
(* ------------------------------------------------------------------ *)

(** Database object identifiers. *)
Definition ObjectId := N.

(** Rows of the [Messages] table: the columns read or written by STORE. *)
Module Messages.
Record t := mk {
    _id : ObjectId;
    mailbox : ObjectId;
    uid : Z;
    flags : list string;
    modseq : Z;
    unseen : bool;
    flagged : bool;
    undeleted : bool;
    draft : bool;
    searchable : bool
  }.

(** The modifier [{ $set: ... }] of an UPDATE: a column is written only
    when the key is present. *)
Record modifier := mkSet {
    set_flags : option (list string);
    set_unseen : option bool;
    set_flagged : option bool;
    set_undeleted : option bool;
    set_draft : option bool;
    set_searchable : option bool;
    set_modseq : option Z
  }.

(** [const $set = {};] *)
Definition emptySet : modifier := mkSet None None None None None None None.

Definition orElse {A} (o : option A) (d : A) : A :=
  match o with Some a => a | None => d end.

Definition applySet (s : modifier) (m : t) : t :=
  mk (_id m) (mailbox m) (uid m)
     (orElse (set_flags s) (flags m))
     (orElse (set_modseq s) (modseq m))
     (orElse (set_unseen s) (unseen m))
     (orElse (set_flagged s) (flagged m))
     (orElse (set_undeleted s) (undeleted m))
     (orElse (set_draft s) (draft m))
     (orElse (set_searchable s) (searchable m)).

(** [$set.modseq = newModseq;] *)
Definition setModseq (n : Z) (s : modifier) : modifier :=
  mkSet (set_flags s) (set_unseen s) (set_flagged s) (set_undeleted s)
        (set_draft s) (set_searchable s) (Some n).

(** The derived columns agree with the flag list. *)
Definition derivedOk (m : t) : Prop :=
  unseen m = negb (includes (flags m) "\Seen")
  /\ flagged m = includes (flags m) "\Flagged"
  /\ undeleted m = negb (includes (flags m) "\Deleted")
  /\ draft m = includes (flags m) "\Draft".
End Messages.

(** Rows of the [Mailboxes] table. *)
Module Mailboxes.
Record t := mk {
    _id : ObjectId;
    modifyIndex : Z;
    flags : list string;
    specialUse : option string
  }.

Record modifier := mkSet {
    set_modifyIndex : option Z;
    set_flags : option (list string)
  }.

Definition applySet (s : modifier) (m : t) : t :=
  mk (_id m)
     (Messages.orElse (set_modifyIndex s) (modifyIndex m))
     (Messages.orElse (set_flags s) (flags m))
     (specialUse m).

(** Modelled from the spec: [findOne] of [#models/mailboxes], called as
    [Mailboxes.findOne(this, session, { _id })]; the first row with that
    identifier, if any. *)
Definition findOne (tbl : list t) (id : ObjectId) : option t :=
  find (fun m => N.eqb (_id m) id) tbl.
End Mailboxes.

(** The session's SQLite database. *)
Record Db := mkDb {
  db_Mailboxes : list Mailboxes.t;
  db_Messages : list Messages.t
}.

Inductive Action := ActSet | ActAdd | ActRemove | ActOther (name : string).

(** The [update] argument of [onStore]. *)
Record Update := mkUpdate {
  action : Action;
  value : list string;
  messages : list Z;
  isUid : bool;
  silent : bool;
  unchangedSince : option Z
}.

(** The parts of [session] read by [onStore]. *)
Record Session := mkSession {
  session_id : string;
  uidList : list Z;
  condstoreEnabled : bool
}.

(** [['FETCH', uid, { uid, flags, modseq }]]; [false] is [None]. *)
Record Response := mkResponse {
  resp_seq : Z;
  resp_uid : option Z;
  resp_flags : list string;
  resp_modseq : option Z
}.

(** A notifier entry [{ command: 'FETCH', ignore, uid, flags, message, modseq }]. *)
Record Entry := mkEntry {
  entry_ignore : string;
  entry_uid : Z;
  entry_flags : list string;
  entry_message : ObjectId;
  entry_modseq : Z
}.

Inductive Err :=
| IMAPError (imapResponse : string)
| TypeError (message : string)
| OtherError (message : string).

(* ------------------------------------------------------------------ *)
(** ** Mutation state machine: the [switch (update.action)]            *)
(* ------------------------------------------------------------------ *)

Definition nonEmpty {A} (l : list A) : bool :=
  match l with [] => false | _ => true end.

(** Outcome of the switch for one message: [updated], the re-assigned
    [message.flags] and the [$set] built so far. *)
Record Switched := mkSwitched {
  updated : bool;
  message_flags : list string;
  dollarSet : Messages.modifier
}.

Section Switch.
Variable specialUse : option string.
Variable val : list string.
Variable mflags : list string.

(** [new Set(message.flags.map((f) => getFlag(f)))] *)
Definition existingFlags : list string := uniq (map getFlag mflags).

Definition caseSet : Switched :=
  let updated :=
    negb (Nat.eqb (List.length existingFlags) (List.length val))
    || existsb (fun f => negb (includes existingFlags (getFlag f))) val in
  let flags' := uniq val in
  mkSwitched updated flags'
    (if updated then
       Messages.mkSet (Some flags')
         (Some (negb (includes flags' "\Seen")))
         (Some (includes flags' "\Flagged"))
         (Some (negb (includes flags' "\Deleted")))
         (Some (includes flags' "\Draft"))
         (Some (negb (includes flags' "\Deleted")))
         None
     else Messages.emptySet).

Definition caseAdd : Switched :=
  let newFlags := filter (fun f => negb (includes existingFlags (getFlag f))) val in
  let updated := nonEmpty newFlags in
  let flags' := uniq (mflags ++ newFlags) in
  mkSwitched updated flags'
    (if updated then
       if includes newFlags "\Seen" || includes newFlags "\Flagged"
          || includes newFlags "\Deleted" || includes newFlags "\Draft"
       then
         Messages.mkSet (Some flags')
           (if includes newFlags "\Seen" then Some false else None)
           (if includes newFlags "\Flagged" then Some true else None)
           (if includes newFlags "\Deleted" then Some false else None)
           (if includes newFlags "\Draft" then Some true else None)
           (if includes newFlags "\Deleted" then Some false else None)
           None
       else Messages.mkSet (Some flags') None None None None None None
     else Messages.emptySet).

Definition caseRemove : Switched :=
  let flagUpdates := uniq (map getFlag val) in
  let kept := filter (fun f => negb (includes flagUpdates (getFlag f))) mflags in
  let oldFlags := filter (fun f => includes flagUpdates (getFlag f)) mflags in
  let updated := nonEmpty oldFlags in
  let flags' := uniq kept in
  mkSwitched updated flags'
    (if updated then
       if includes oldFlags "\Seen" || includes oldFlags "\Flagged"
          || includes oldFlags "\Deleted" || includes oldFlags "\Draft"
       then
         Messages.mkSet (Some flags')
           (if includes oldFlags "\Seen" then Some true else None)
           (if includes oldFlags "\Flagged" then Some false else None)
           (if includes oldFlags "\Deleted" then Some true else None)
           (if includes oldFlags "\Draft" then Some false else None)
           (if includes oldFlags "\Deleted" then
              match specialUse with
              | Some su => if includes ["\Junk"; "\Trash"] su then None else Some true
              | None => Some true
              end
            else None)
           None
       else Messages.mkSet (Some flags') None None None None None None
     else Messages.emptySet).

(** [inl]: the [default] branch throws. *)
Definition switchAction (a : Action) : Err + Switched :=
  match a with
  | ActSet => inr caseSet
  | ActAdd => inr caseAdd
  | ActRemove => inr caseRemove
  | ActOther _ => inl (TypeError "Unknown action")
  end.
End Switch.

(* ------------------------------------------------------------------ *)
(** ** The storage transaction                                         *)
(* ------------------------------------------------------------------ *)

(** State threaded through the body of [session.db.transaction]. *)
Record Tx := mkTx {
  tx_db : Db;
  newModseq : option Z;
  modified : list Z;
  writeStream : list Response;
  entries : list Entry
}.

(** [UPDATE Messages SET ... WHERE _id = ? AND mailbox = ? AND uid = ?
    AND modseq < ?] *)
Definition updateMessages (id mb : ObjectId) (u lt : Z)
    (s : Messages.modifier) (tbl : list Messages.t) : list Messages.t :=
  map (fun r =>
         if N.eqb (Messages._id r) id && N.eqb (Messages.mailbox r) mb
            && Z.eqb (Messages.uid r) u && (Messages.modseq r <? lt)
         then Messages.applySet s r else r) tbl.

(** [UPDATE Mailboxes SET ... WHERE _id = ?] *)
Definition updateMailboxes (id : ObjectId) (s : Mailboxes.modifier)
    (tbl : list Mailboxes.t) : list Mailboxes.t :=
  map (fun r => if N.eqb (Mailboxes._id r) id then Mailboxes.applySet s r else r) tbl.

(** [sort: 'uid'] of the SELECT. *)
Fixpoint insertByUid (m : Messages.t) (l : list Messages.t) : list Messages.t :=
  match l with
  | [] => [m]
  | x :: r =>
      if Messages.uid m <=? Messages.uid x then m :: l else x :: insertByUid m r
  end.

Definition sortByUid (l : list Messages.t) : list Messages.t :=
  fold_right insertByUid [] l.

(** [for (const x of xs) { ... }] with a body that may throw. *)
Fixpoint forOf {A S} (body : S -> A -> Err + S) (xs : list A) (s : S) : Err + S :=
  match xs with
  | [] => inr s
  | x :: r =>
      match body s x with
      | inl e => inl e
      | inr s' => forOf body r s'
      end
  end.

(* ------------------------------------------------------------------ *)
(** ** Collaborators, the lock and the callback                        *)
(* ------------------------------------------------------------------ *)

(** Calls made to collaborators, in order. *)
Inductive Event :=
| EvRequest
| EvWrite (r : Response)
| EvRefreshSession
| EvAcquireLock
| EvFindOne
| EvPrepare
| EvReleaseLock
| EvUpdateStorageUsed
| EvAddEntries (es : list Entry)
| EvFire
| EvError (e : Err)
| EvFatal (e : Err).

(** What the handler acts on: the database, the lock on its handle and
    the log of collaborator calls. *)
Record World := mkWorld {
  w_db : Db;
  lockHeld : bool;
  trace : list Event
}.

(** How the collaborators behave during one invocation: [Some e] makes
    the call throw [e]. [wsp] is the remote worker, when there is one,
    with the reply to its [request]. *)
Record Env := mkEnv {
  wsp : option (Err + (bool * list Z * list Response));
  refreshSession : option Err;
  acquireLock : option Err;
  findOneError : option Err;
  prepare : option Err;
  releaseLock : option Err;
  updateStorageUsed : option Err;
  addEntries : option Err
}.

(** What is handed to the callback [fn]. *)
Inductive Outcome :=
| Success (ok : bool) (modified : list Z) (writeStream : list Response)
| Rejected (imapResponse : string)
| Failure (e : Err)
| Delegated (ok : bool) (response : list Z).

(** Computations that read and write the world and may throw. *)
Definition M (A : Type) : Type := World -> (Err + A) * World.

Definition ret {A} (a : A) : M A := fun w => (inr a, w).

Definition bind {A B} (m : M A) (k : A -> M B) : M B :=
  fun w =>
    match m w with
    | (inl e, w') => (inl e, w')
    | (inr a, w') => k a w'
    end.

Definition throw {A} (e : Err) : M A := fun w => (inl e, w).

(** [try { m } catch (err) { h err }] *)
Definition tryCatch {A} (m : M A) (h : Err -> M A) : M A :=
  fun w =>
    match m w with
    | (inl e, w') => h e w'
    | r => r
    end.

Notation "x <- m ;; k" := (bind m (fun x => k))
  (at level 61, m at next level, right associativity).
Notation "m ;; k" := (bind m (fun _ => k))
  (at level 61, right associativity).

Definition emit (ev : Event) : M unit :=
  fun w => (inr tt, mkWorld (w_db w) (lockHeld w) (trace w ++ [ev])).

(** [await] of a collaborator whose result is already decided. *)
Definition await {A} (ev : Event) (r : Err + A) : M A :=
  fun w => (r, mkWorld (w_db w) (lockHeld w) (trace w ++ [ev])).

Definition unitResult (o : option Err) : Err + unit :=
  match o with Some e => inl e | None => inr tt end.

Definition getDb : M Db := fun w => (inr (w_db w), w).

Definition putDb (db : Db) : M unit :=
  fun w => (inr tt, mkWorld db (lockHeld w) (trace w)).

(** Modelled from the spec: [acquireLock] of [#helpers/lock], the lock
    service's [acquire(handle) -> Lock]; it takes the lock on the
    database handle or throws. Called as [acquireLock(this, session.db)]. *)
Definition acquire (env : Env) : M unit :=
  fun w =>
    match acquireLock env with
    | Some e => (inl e, mkWorld (w_db w) (lockHeld w) (trace w ++ [EvAcquireLock]))
    | None => (inr tt, mkWorld (w_db w) true (trace w ++ [EvAcquireLock]))
    end.

(** Modelled from the spec: [releaseLock] of [#helpers/lock], the lock
    service's [release(handle, Lock) -> void]; it gives the lock back or
    throws. Called as [releaseLock(this, session.db, lock)]. *)
Definition release (env : Env) : M unit :=
  fun w =>
    match releaseLock env with
    | Some e => (inl e, mkWorld (w_db w) (lockHeld w) (trace w ++ [EvReleaseLock]))
    | None => (inr tt, mkWorld (w_db w) false (trace w ++ [EvReleaseLock]))
    end.

(** [Mailboxes.findOne(this, session, { _id: mailboxId })] *)
Definition findOne (env : Env) (mailboxId : ObjectId) : M (option Mailboxes.t) :=
  fun w =>
    (match findOneError env with
     | Some e => inl e
     | None => inr (Mailboxes.findOne (db_Mailboxes (w_db w)) mailboxId)
     end,
     mkWorld (w_db w) (lockHeld w) (trace w ++ [EvFindOne])).

Fixpoint forEach {A} (f : A -> M unit) (l : list A) : M unit :=
  match l with
  | [] => ret tt
  | x :: r => f x ;; forEach f r
  end.

Definition nonEmptyString (s : string) : bool :=
  match s with EmptyString => false | _ => true end.

Section Store.
(** [imapTools.systemFlags] of the IMAP core. *)
Variable systemFlags : list string.
(** The uid predicate that [tools.checkRangeQuery(update.messages)]
    denotes once translated for the storage engine. *)
Variable checkRangeQuery : list Z -> Z -> bool.

Section Transaction.
Variable mailbox : Mailboxes.t.
Variable update : Update.
Variable session : Session.

(** [update.messages.length === session.selected.uidList.length] *)
Definition queryAll : bool :=
  Nat.eqb (List.length (messages update)) (List.length (uidList session)).

(** [session.db.prepare(sql.query).all(sql.values)] *)
Definition selectMessages (db : Db) : list Messages.t :=
  sortByUid
    (filter (fun r =>
               N.eqb (Messages.mailbox r) (Mailboxes._id mailbox)
               && (queryAll || checkRangeQuery (messages update) (Messages.uid r)))
            (db_Messages db)).

(** [if (!newModseq) newModseq = mailbox.modifyIndex + 1;]
    The sum is taken in [Z]. In JavaScript it is a sum of doubles, which
    is this sum while the counter is in the range [exactIncrement]
    below; from [2^53] on JavaScript rounds ([2^53 + 1] is [2^53]).
    Statements about the value of the number carry that range. *)
Definition getModseq (newModseq : option Z) : Z :=
  if truthyOpt newModseq then Messages.orElse newModseq 0
  else Mailboxes.modifyIndex mailbox + 1.

(** Body of [for (const result of messages)]. *)
Definition storeMessage (tx : Tx) (message : Messages.t) : Err + Tx :=
  if queryAll && negb (includesZ (uidList session) (Messages.uid message)) then
    inr tx
  else if truthyOpt (unchangedSince update)
          && match unchangedSince update with
             | Some us => us <? Messages.modseq message
             | None => false
             end then
    inr (mkTx (tx_db tx) (newModseq tx)
              (modified tx ++ [Messages.uid message])
              (writeStream tx) (entries tx))
  else
    match switchAction (Mailboxes.specialUse mailbox) (value update)
                       (Messages.flags message) (action update) with
    | inl e => inl e
    | inr sw =>
        if negb (updated sw) then inr tx
        else
          let nm := getModseq (newModseq tx) in
          let ws :=
            if negb (silent update) || condstoreEnabled session then
              writeStream tx ++
                [mkResponse (Messages.uid message)
                   (if isUid update then Some (Messages.uid message) else None)
                   (message_flags sw)
                   (if condstoreEnabled session then Some nm else None)]
            else writeStream tx in
          let s' := Messages.setModseq nm (dollarSet sw) in
          inr (mkTx
                 (mkDb (db_Mailboxes (tx_db tx))
                       (updateMessages (Messages._id message) (Mailboxes._id mailbox)
                          (Messages.uid message) nm s' (db_Messages (tx_db tx))))
                 (Some nm)
                 (modified tx)
                 ws
                 (entries tx ++
                    [mkEntry (session_id session) (Messages.uid message)
                       (message_flags sw) (Messages._id message) nm]))
    end.

(** What one iteration can do to the transaction state. *)
Inductive stepOf (tx : Tx) (message : Messages.t) : Tx -> Prop :=
  | step_skip : stepOf tx message tx
  | step_conflict us :
      unchangedSince update = Some us -> us <> 0 -> us < Messages.modseq message ->
      stepOf tx message
        (mkTx (tx_db tx) (newModseq tx) (modified tx ++ [Messages.uid message])
              (writeStream tx) (entries tx))
  | step_write sw ws :
      switchAction (Mailboxes.specialUse mailbox) (value update)
        (Messages.flags message) (action update) = inr sw ->
      updated sw = true ->
      (forall r, In r ws -> In r (writeStream tx) \/
         resp_flags r = message_flags sw /\ resp_seq r = Messages.uid message) ->
      stepOf tx message
        (mkTx (mkDb (db_Mailboxes (tx_db tx))
                 (updateMessages (Messages._id message) (Mailboxes._id mailbox)
                    (Messages.uid message) (getModseq (newModseq tx))
                    (Messages.setModseq (getModseq (newModseq tx)) (dollarSet sw))
                    (db_Messages (tx_db tx))))
              (Some (getModseq (newModseq tx)))
              (modified tx)
              ws
              (entries tx ++
                 [mkEntry (session_id session) (Messages.uid message)
                    (message_flags sw) (Messages._id message)
                    (getModseq (newModseq tx))])).

(** State of the loop relative to the database [db] it started from:
    the mailbox table is untouched, the sequence number is either not
    yet allocated (and then nothing has happened) or [modifyIndex + 1],
    and every row or entry written carries that number. *)
Definition loopInv (db : Db) (tx : Tx) : Prop :=
  db_Mailboxes (tx_db tx) = db_Mailboxes db
  /\ ((newModseq tx = None /\ tx_db tx = db /\ entries tx = [] /\ writeStream tx = [])
      \/ (newModseq tx = Some (Mailboxes.modifyIndex mailbox + 1) /\ entries tx <> []))
  /\ (forall r, In r (db_Messages (tx_db tx)) ->
        In r (db_Messages db) \/ Messages.modseq r = Mailboxes.modifyIndex mailbox + 1)
  /\ (forall e, In e (entries tx) -> entry_modseq e = Mailboxes.modifyIndex mailbox + 1).

(** ... and every row has its derived columns in step with its flags. *)
Definition rowsInv (db : Db) (tx : Tx) : Prop :=
  loopInv db tx
  /\ forall r, In r (db_Messages (tx_db tx)) -> Messages.derivedOk r.

(** For the add action: the iteration for [message] ends at one of the
    two [continue]s or at [if (!updated) continue], before any write. *)
Definition quiet (message : Messages.t) : bool :=
  (queryAll && negb (includesZ (uidList session) (Messages.uid message)))
  || (truthyOpt (unchangedSince update)
      && match unchangedSince update with
         | Some us => us <? Messages.modseq message
         | None => false
         end)
  || negb (updated (caseAdd (value update) (Messages.flags message))).

(** State of the add loop after the rows [done]: row identifiers are
    kept; a row is as fetched or carries the new sequence number and
    covers the input flags; a processed row that was not quiet has been
    written. *)
Definition addInv (db : Db) (done : list Messages.t) (tx : Tx) : Prop :=
  loopInv db tx
  /\ map Messages._id (db_Messages (tx_db tx)) = map Messages._id (db_Messages db)
  /\ (forall r, In r (db_Messages (tx_db tx)) ->
        In r (db_Messages db)
        \/ (Messages.modseq r = Mailboxes.modifyIndex mailbox + 1
            /\ updated (caseAdd (value update) (Messages.flags r)) = false))
  /\ (forall m, In m done ->
        quiet m = true
        \/ forall r, In r (db_Messages (tx_db tx)) ->
             Messages._id r = Messages._id m ->
             Messages.modseq r = Mailboxes.modifyIndex mailbox + 1).

(** [[...imapTools.systemFlags, ...(mailbox.flags || [])].map(getFlag)] *)
Definition mailboxFlags : list string :=
  map getFlag (systemFlags ++ Mailboxes.flags mailbox).

(** [for (const flag of update.value)] of the vocabulary update;
    [newFlags] is the accumulator. *)
Definition collectFlag (newFlags : list string) (flag : string) : Err + list string :=
  if (100 <=? List.length mailboxFlags + List.length newFlags)%nat then
    inl (TypeError "Mailbox flags exceeds 100")
  else if negb (includes mailboxFlags (getFlag flag)) then inr (newFlags ++ [flag])
  else inr newFlags.

Definition mailboxNewFlags : Err + list string :=
  match action update with
  | ActRemove => inr []
  | _ => forOf collectFlag (value update) []
  end.

(** [!mailboxFlags.includes(getFlag(flag))] *)
Definition isNewFlag (flag : string) : bool :=
  negb (includes mailboxFlags (getFlag flag)).

(** The input flags that the mailbox vocabulary lacks: what the loop
    above collects when it does not throw. *)
Definition vocabularyGrowth : list string := filter isNewFlag (value update).

(** [if (newModseq || newFlags.length > 0) { ... }] *)
Definition updateMailbox (tx : Tx) (newFlags : list string) : Tx :=
  if truthyOpt (newModseq tx) || nonEmpty newFlags then
    let s := Mailboxes.mkSet
               (if truthyOpt (newModseq tx) then newModseq tx else None)
               (if nonEmpty newFlags
                then Some (uniq (Mailboxes.flags mailbox ++ newFlags))
                else None) in
    mkTx (mkDb (updateMailboxes (Mailboxes._id mailbox) s (db_Mailboxes (tx_db tx)))
               (db_Messages (tx_db tx)))
         (newModseq tx) (modified tx) (writeStream tx) (entries tx)
  else tx.

(** The function passed to [session.db.transaction]. *)
Definition transactionBody (msgs : list Messages.t) (db : Db) : Err + Tx :=
  match forOf storeMessage msgs (mkTx db None [] [] []) with
  | inl e => inl e
  | inr tx =>
      match mailboxNewFlags with
      | inl e => inl e
      | inr newFlags => inr (updateMailbox tx newFlags)
      end
  end.

(** [if (messages.length > 0) session.db.transaction(...)()]: all or
    nothing; without rows the transaction is not started. *)
Definition transaction (msgs : list Messages.t) (db : Db) : Err + Tx :=
  if nonEmpty msgs then transactionBody msgs db
  else inr (mkTx db None [] [] []).
End Transaction.

(** [async function onStore(mailboxId, update, session, fn)] *)
Definition onStore (env : Env) (mailboxId : ObjectId) (update : Update)
    (session : Session) : M Outcome :=
  match wsp env with
  | Some remote =>
      tryCatch
        (r <- await EvRequest remote ;;
         let '(b, response, ws) := r in
         forEach (fun w => emit (EvWrite w)) ws ;;
         ret (Delegated b response))
        (fun err => ret (Failure err))
  | None =>
      tryCatch
        (await EvRefreshSession (unitResult (refreshSession env)) ;;
         acquire env ;;
         mailbox <- findOne env mailboxId ;;
         match mailbox with
         | None => throw (IMAPError "NONEXISTENT")
         | Some mailbox =>
             await EvPrepare (unitResult (prepare env)) ;;
             db <- getDb ;;
             let msgs := selectMessages mailbox update session db in
             let result := transaction mailbox update session msgs db in
             match result with
             | inr tx => putDb (tx_db tx)
             | inl _ => ret tt
             end ;;
             tryCatch (release env) (fun err => emit (EvFatal err)) ;;
             tryCatch (await EvUpdateStorageUsed (unitResult (updateStorageUsed env)))
                      (fun err => emit (EvFatal err)) ;;
             match result with
             | inl err => throw err
             | inr tx =>
                 (if nonEmpty (entries tx) then
                    await (EvAddEntries (entries tx)) (unitResult (addEntries env)) ;;
                    emit EvFire
                  else ret tt) ;;
                 ret (Success true (modified tx) (writeStream tx))
             end
         end)
        (fun err =>
           match err with
           | IMAPError r =>
               if nonEmptyString r then emit (EvError err) ;; ret (Rejected r)
               else ret (Failure err)
           | _ => ret (Failure err)
           end)
  end.
End Store.

(** No message is ahead of its mailbox: a [modseq] was once the
    [modifyIndex] of the mailbox. *)
Definition modseqBounded (db : Db) : Prop :=
  forall mb m,
    In mb (db_Mailboxes db) -> In m (db_Messages db) ->
    Messages.mailbox m = Mailboxes._id mb ->
    Messages.modseq m <= Mailboxes.modifyIndex mb.

(** Every stored message row has its own [_id] (primary key). *)
Definition uniqueIds (db : Db) : Prop :=
  NoDup (map Messages._id (db_Messages db)).

(** The counters [n] for which [n + 1] on doubles is the integer sum:
    [n] and [n + 1] are both integers of magnitude at most [2^53]. *)
Definition exactIncrement (n : Z) : Prop := - 2 ^ 53 <= n < 2 ^ 53.

(** No message of [mailbox] is ahead of it. *)
Definition modseqBehind (mailbox : Mailboxes.t) (db : Db) : Prop :=
  forall m,
    In m (db_Messages db) ->
    Messages.mailbox m = Mailboxes._id mailbox ->
    Messages.modseq m <= Mailboxes.modifyIndex mailbox.

(* ------------------------------------------------------------------ *)
(** ** Sample data                                                     *)
(* ------------------------------------------------------------------ *)

Module Sample.

(** The system flags as the IMAP core lists them. *)
Definition systemFlags : list string :=
  ["\answered"; "\flagged"; "\draft"; "\deleted"; "\seen"].

(** A uid filter selects the listed uids. *)
Definition checkRangeQuery (uids : list Z) (u : Z) : bool := includesZ uids u.

(** A row whose derived columns are computed from its flags. *)
Definition row (id : ObjectId) (mb : ObjectId) (u : Z) (fl : list string) (ms : Z)
    : Messages.t :=
  Messages.mk id mb u fl ms
    (negb (includes fl "\Seen")) (includes fl "\Flagged")
    (negb (includes fl "\Deleted")) (includes fl "\Draft")
    (negb (includes fl "\Deleted")).

(** No collaborator fails, no remote worker. *)
Definition env : Env := mkEnv None None None None None None None None.

Definition session : Session := mkSession "s1" [1; 2; 3] false.

Definition inbox : Mailboxes.t := Mailboxes.mk 1%N 7 [] None.

(** A mailbox with messages UID 1-3 and no flags. *)
Definition db : Db :=
  mkDb [inbox] [row 10%N 1%N 1 [] 3; row 11%N 1%N 2 [] 4; row 12%N 1%N 3 [] 5].

Definition world : World := mkWorld db false [].

(** [add {UID: [1, 2], flags: [\Seen]}] *)
Definition addSeen : Update := mkUpdate ActAdd ["\Seen"] [1; 2] true false None.

(** The same command guarded by [UNCHANGEDSINCE 0]. *)
Definition addSeenUnchangedSince0 : Update :=
  mkUpdate ActAdd ["\Seen"] [1; 2] true false (Some 0).

(** A command addressed to a uid the mailbox does not hold. *)
Definition addSeenNowhere : Update := mkUpdate ActAdd ["\Seen"] [5] true false None.

(** The query for the candidate rows cannot be built. *)
Definition envPrepareFails : Env :=
  mkEnv None None None None (Some (OtherError "query")) None None None.

(** One message flagged \Seen, and [FLAGS (\Seen \Seen)] stored on it. *)
Definition dbSeen : Db := mkDb [inbox] [row 10%N 1%N 1 ["\Seen"] 3].

Definition setSeenTwice : Update :=
  mkUpdate ActSet ["\Seen"; "\Seen"] [1] true false None.

(** A message in the Trash carrying \Deleted. *)
Definition deleted : Messages.t := row 20%N 2%N 1 ["\Deleted"; "\Seen"] 3.

(** [n] distinct custom keywords: k, kk, kkk, ... *)
Definition keywords (n : nat) : list string :=
  map (fun i => String.concat "" (repeat "k" (S i))) (seq 0 n).

(** A mailbox with 94 custom flags and one message without flags. *)
Definition crowded : Mailboxes.t := Mailboxes.mk 1%N 7 (keywords 94) None.

Definition dbCrowded : Db := mkDb [crowded] [row 10%N 1%N 1 [] 3].

Definition addTwoNew : Update :=
  mkUpdate ActAdd ["new1"; "new2"] [1] true false None.

Definition addSixNewNowhere : Update :=
  mkUpdate ActAdd ["new1"; "new2"; "new3"; "new4"; "new5"; "new6"] [5] true false None.

(** A message carrying a keyword that its mailbox does not list. *)
Definition dbFresh : Db := mkDb [inbox] [row 10%N 1%N 1 ["fresh"] 3].

Definition addFresh : Update := mkUpdate ActAdd ["fresh"] [1] true false None.

(** The same message in a mailbox whose vocabulary, with the system
    flags, has reached 100 names. *)
Definition full : Mailboxes.t := Mailboxes.mk 1%N 7 (keywords 95) None.

Definition dbFull : Db := mkDb [full] [row 10%N 1%N 1 ["fresh"] 3].

Definition addFreshNowhere : Update := mkUpdate ActAdd ["fresh"] [5] true false None.

End Sample.

(* ------------------------------------------------------------------ *)
(** ** Predicates on rows and strings                                  *)
(* ------------------------------------------------------------------ *)

(** A string that is empty or does not begin with white space. *)
Definition startsClean (s : string) : Prop :=
  match s with
  | EmptyString => True
  | String c _ => JsString.isWhiteSpace c = false
  end.

(** The columns of a message row that identify it. *)
Definition rowKey (r : Messages.t) : ObjectId * ObjectId * Z :=
  (Messages._id r, Messages.mailbox r, Messages.uid r).

(** The first [continue] of the loop: under [queryAll], a row whose uid
    the session does not know. *)
Definition skipped (update : Update) (session : Session) (m : Messages.t) : bool :=
  queryAll update session && negb (includesZ (uidList session) (Messages.uid m)).

(** The second [continue]: the row changed after the guard. *)
Definition guarded (update : Update) (m : Messages.t) : bool :=
  truthyOpt (unchangedSince update)
  && match unchangedSince update with
     | Some us => us <? Messages.modseq m
     | None => false
     end.

(** Rows the command is addressed to: in the mailbox, matched by the
    query and not skipped under [queryAll]. *)
Definition addressed (checkRangeQuery : list Z -> Z -> bool) (mailboxId : ObjectId)
    (update : Update) (session : Session) (r : Messages.t) : bool :=
  N.eqb (Messages.mailbox r) mailboxId
  && (queryAll update session || checkRangeQuery (messages update) (Messages.uid r))
  && negb (skipped update session r).

(** The response stream against the entries, while the loop runs. *)
Definition responsesInv (mailbox : Mailboxes.t) (update : Update) (session : Session)
    (tx : Tx) : Prop :=
  (negb (silent update) || condstoreEnabled session = false -> writeStream tx = [])
  /\ (negb (silent update) || condstoreEnabled session = true ->
      map (fun r => (resp_seq r, resp_flags r)) (writeStream tx)
      = map (fun e => (entry_uid e, entry_flags e)) (entries tx))
  /\ (forall r, In r (writeStream tx) ->
        resp_uid r = (if isUid update then Some (resp_seq r) else None)
        /\ resp_modseq r = (if condstoreEnabled session
                            then Some (Mailboxes.modifyIndex mailbox + 1) else None)).

(** A message that carries \Deleted is not searchable. *)
Definition deletedHidden (m : Messages.t) : Prop :=
  includes (Messages.flags m) "\Deleted" = true -> Messages.searchable m = false.

(** Every mailbox row has its own [_id]. *)
Definition uniqueMailboxIds (db : Db) : Prop :=
  NoDup (map Mailboxes._id (db_Mailboxes db)).

(** What the two guarded calls after the transaction log:
    [this.logger.fatal(err, ...)] when the call throws. *)
Definition fatalLog (o : option Err) : list Event :=
  match o with Some e => [EvFatal e] | None => [] end.

(** The outer [catch (err)]: an error with a non-empty [imapResponse]
    is logged and handed over as a response, any other as an error. *)
Definition respond (e : Err) : Outcome * list Event :=
  match e with
  | IMAPError r => if nonEmptyString r then (Rejected r, [EvError e]) else (Failure e, [])
  | _ => (Failure e, [])
  end.

(** What follows the two guarded calls: the error of the transaction is
    thrown again, or the notifier is called when there are entries. *)
Definition afterCleanup (env : Env) (result : Err + Tx) : Outcome * list Event :=
  match result with
  | inl e => respond e
  | inr tx =>
      if nonEmpty (entries tx) then
        match addEntries env with
        | Some e => (fst (respond e), EvAddEntries (entries tx) :: snd (respond e))
        | None => (Success true (modified tx) (writeStream tx),
                   [EvAddEntries (entries tx); EvFire])
        end
      else (Success true (modified tx) (writeStream tx), [])
  end.

(** [env] with other outcomes for [releaseLock] and [updateStorageUsed]. *)
Definition withCleanup (rl su : option Err) (env : Env) : Env :=
  mkEnv (wsp env) (refreshSession env) (acquireLock env) (findOneError env)
        (prepare env) rl su (addEntries env).

(* ------------------------------------------------------------------ *)
(** ** Further sample data                                             *)
(* ------------------------------------------------------------------ *)

Module Scenario.

(** [add \Seen] on UID 1 and 2 guarded by [UNCHANGEDSINCE 3]: the
    message with UID 2 has [modseq] 4. *)
Definition addSeenUnchangedSince3 : Update :=
  mkUpdate ActAdd ["\Seen"] [1; 2] true false (Some 3).

(** [remove \Seen] from UID 1. *)
Definition removeSeen : Update := mkUpdate ActRemove ["\seen"] [1] true false None.

(** An action the handler does not know. *)
Definition toggleSeen : Update :=
  mkUpdate (ActOther "toggle") ["\Seen"] [1; 2] true false None.

(** The notifier does not take the entries. *)
Definition envNotifierFails : Env :=
  mkEnv None None None None None None None (Some (OtherError "notifier")).

(** The session cannot be refreshed. *)
Definition envRefreshFails : Env :=
  mkEnv None (Some (IMAPError "AUTHENTICATIONFAILED")) None None None None None None.

(** A remote worker that answers with one response. *)
Definition remoteReply : Err + (bool * list Z * list Response) :=
  inr (true, [], [mkResponse 1 (Some 1) ["\Seen"] None]).

Definition envRemote : Env :=
  mkEnv (Some remoteReply) None None None None None None None.

(** What the transaction of [Sample.addSeen] on [Sample.db] commits. *)
Definition txAddSeen : Tx :=
  match transaction Sample.systemFlags Sample.inbox Sample.addSeen Sample.session
          (selectMessages Sample.checkRangeQuery Sample.inbox Sample.addSeen
             Sample.session Sample.db) Sample.db with
  | inr tx => tx
  | inl _ => mkTx Sample.db None [] [] []
  end.

(** A message whose [modseq] (10) is ahead of its mailbox's
    [modifyIndex] (7), and [add \Seen] addressed to it. *)
Definition dbAhead : Db := mkDb [Sample.inbox] [Sample.row 10%N 1%N 1 [] 10].

Definition addSeenOne : Update := mkUpdate ActAdd ["\Seen"] [1] true false None.

(** UID 1 carries \Deleted and is not searchable; [add \Deleted] on
    UID 1 and 2. *)
Definition dbDeleted : Db :=
  mkDb [Sample.inbox]
    [Sample.row 10%N 1%N 1 ["\Deleted"] 3; Sample.row 11%N 1%N 2 [] 4;
     Sample.row 12%N 1%N 3 [] 5].

Definition addDeleted : Update := mkUpdate ActAdd ["\Deleted"] [1; 2] true false None.

(** A mailbox with 90 custom flags and one message, and an add that
    writes one new flag six times. *)
Definition ninety : Mailboxes.t := Mailboxes.mk 1%N 7 (Sample.keywords 90) None.

Definition dbNinety : Db := mkDb [ninety] [Sample.row 10%N 1%N 1 [] 3].

Definition addFreshSixTimes : Update :=
  mkUpdate ActAdd (repeat "fresh" 6) [1] true false None.

End Scenario.

(* ================================================================== *)
(** * Properties                                                       *)
(* ================================================================== *)

Unset Implicit Arguments.

(* ------------------------------------------------------------------ *)
(** ** Arrays and sets: basic facts                                    *)
(* ------------------------------------------------------------------ *)

Lemma includes_In (l : list string) (x : string) :
  includes l x = true <-> In x l.
Proof.
  induction l as [|y r IH]; simpl.
  - split; [discriminate | tauto].
  - rewrite orb_true_iff, IH, String.eqb_eq. tauto.
Qed.

Lemma includes_app (l1 l2 : list string) (x : string) :
  includes (l1 ++ l2) x = includes l1 x || includes l2 x.
Proof.
  induction l1 as [|y r IH]; simpl; [reflexivity|].
  now rewrite IH, orb_assoc.
Qed.

Lemma includes_filter (p : string -> bool) (l : list string) (x : string) :
  includes (filter p l) x = includes l x && p x.
Proof.
  induction l as [|y r IH]; simpl; [reflexivity|].
  destruct (p y) eqn:Hp; simpl; rewrite IH.
  - destruct (String.eqb_spec y x) as [->|]; simpl; [now rewrite Hp|reflexivity].
  - destruct (String.eqb_spec y x) as [->|]; simpl; [|reflexivity].
    rewrite Hp. now rewrite andb_false_r.
Qed.

Lemma includes_uniq (l : list string) (x : string) :
  includes (uniq l) x = includes l x.
Proof.
  induction l as [|y r IH]; simpl; [reflexivity|].
  rewrite includes_filter, IH.
  destruct (String.eqb y x); simpl; [reflexivity|].
  now rewrite andb_true_r.
Qed.

Lemma uniq_In (l : list string) (x : string) : In x (uniq l) <-> In x l.
Proof. now rewrite <- !includes_In, includes_uniq. Qed.

Lemma nonEmpty_filter_includes (p : string -> bool) (l : list string) :
  nonEmpty (filter p l) = existsb p l.
Proof.
  induction l as [|y r IH]; simpl; [reflexivity|].
  destruct (p y); simpl; [reflexivity|exact IH].
Qed.

Lemma inr_eq {A B} (a b : B) : @inr A B a = inr b -> a = b.
Proof. congruence. Qed.

Lemma NoDup_map_inj {A B} (f : A -> B) (l : list A) (a b : A) :
  NoDup (map f l) -> In a l -> In b l -> f a = f b -> a = b.
Proof.
  induction l as [|x r IH]; simpl; [tauto|].
  intros Hnd Ha Hb Hab. inversion Hnd as [|? ? Hnin Hnd']; subst.
  destruct Ha as [->|Ha], Hb as [->|Hb]; auto.
  - exfalso. apply Hnin. rewrite Hab. now apply in_map.
  - exfalso. apply Hnin. rewrite <- Hab. now apply in_map.
Qed.

Lemma insertByUid_In (m x : Messages.t) (l : list Messages.t) :
  In x (insertByUid m l) <-> x = m \/ In x l.
Proof.
  induction l as [|y r IH]; simpl.
  - intuition congruence.
  - destruct (Messages.uid m <=? Messages.uid y); simpl; [intuition congruence|].
    rewrite IH. intuition congruence.
Qed.

Lemma sortByUid_In (x : Messages.t) (l : list Messages.t) :
  In x (sortByUid l) <-> In x l.
Proof.
  induction l as [|y r IH]; simpl; [tauto|].
  rewrite insertByUid_In, IH. intuition congruence.
Qed.

(** Rule for [for ... of] loops: a property kept by every iteration that
    does not throw holds when the loop ends normally. *)
Lemma forOf_invariant {A S} (P : S -> Prop) (body : S -> A -> Err + S) :
  forall (xs : list A) (s s' : S),
    P s ->
    (forall t x t', In x xs -> P t -> body t x = inr t' -> P t') ->
    forOf body xs s = inr s' -> P s'.
Proof.
  induction xs as [|x r IH]; simpl; intros s s' Hs Hstep Hrun.
  - inversion Hrun; subst; exact Hs.
  - destruct (body s x) as [e|t] eqn:Hb; [discriminate|].
    apply (IH t s'); eauto.
Qed.

(* ------------------------------------------------------------------ *)
(** ** Derived columns                                                 *)
(* ------------------------------------------------------------------ *)

(** One message: whatever the action, the [$set] computed from the row's
    flags and applied to that row leaves the derived columns in step with
    the new flag list. *)
Lemma switch_derivedOk (su : option string) (val : list string) (a : Action)
    (m : Messages.t) (sw : Switched) (nm : Z) :
  Messages.derivedOk m ->
  switchAction su val (Messages.flags m) a = inr sw ->
  updated sw = true ->
  Messages.derivedOk (Messages.applySet (Messages.setModseq nm (dollarSet sw)) m).
Proof.
  intros (Hs & Hf & Hd & Hr) Hsw Hup.
  destruct a; cbn [switchAction] in Hsw; inversion Hsw; subst sw; clear Hsw;
    unfold caseSet, caseAdd, caseRemove in *;
    cbn [updated dollarSet message_flags] in *; rewrite Hup;
    unfold Messages.derivedOk.
  - cbn [Messages.applySet Messages.setModseq Messages.orElse Messages.set_flags
         Messages.set_unseen Messages.set_flagged Messages.set_undeleted
         Messages.set_draft Messages.flags Messages.unseen Messages.flagged
         Messages.undeleted Messages.draft].
    tauto.
  - set (nf := filter _ val) in *.
    destruct (includes nf "\Seen") eqn:E1, (includes nf "\Flagged") eqn:E2,
      (includes nf "\Deleted") eqn:E3, (includes nf "\Draft") eqn:E4;
      cbn [orb Messages.applySet Messages.setModseq Messages.orElse Messages.set_flags
           Messages.set_unseen Messages.set_flagged Messages.set_undeleted
           Messages.set_draft Messages.flags Messages.unseen Messages.flagged
           Messages.undeleted Messages.draft];
      rewrite !includes_uniq, !includes_app, ?E1, ?E2, ?E3, ?E4, ?Hs, ?Hf, ?Hd, ?Hr,
        ?orb_true_r, ?orb_false_r;
      repeat split; reflexivity.
  - set (fu := uniq (map getFlag val)) in *.
    rewrite !includes_filter.
    destruct (includes (Messages.flags m) "\Seen") eqn:E1,
      (includes (Messages.flags m) "\Flagged") eqn:E2,
      (includes (Messages.flags m) "\Deleted") eqn:E3,
      (includes (Messages.flags m) "\Draft") eqn:E4;
      destruct (includes fu (getFlag "\Seen")) eqn:G1,
        (includes fu (getFlag "\Flagged")) eqn:G2,
        (includes fu (getFlag "\Deleted")) eqn:G3,
        (includes fu (getFlag "\Draft")) eqn:G4;
      cbn [orb andb Messages.applySet Messages.setModseq Messages.orElse
           Messages.set_flags Messages.set_unseen Messages.set_flagged
           Messages.set_undeleted Messages.set_draft Messages.flags Messages.unseen
           Messages.flagged Messages.undeleted Messages.draft];
      rewrite !includes_uniq, !includes_filter, ?E1, ?E2, ?E3, ?E4, ?G1, ?G2, ?G3, ?G4,
        ?Hs, ?Hf, ?Hd, ?Hr;
      repeat split; reflexivity.
Qed.

(* ------------------------------------------------------------------ *)
(** ** The message loop                                                *)
(* ------------------------------------------------------------------ *)

Section Loop.
Variable systemFlags : list string.
Variable checkRangeQuery : list Z -> Z -> bool.
Variable mailbox : Mailboxes.t.
Variable update : Update.
Variable session : Session.

Lemma storeMessage_stepOf (tx tx' : Tx) (message : Messages.t) :
    storeMessage mailbox update session tx message = inr tx' ->
    stepOf mailbox update session tx message tx'.
Proof.
  unfold storeMessage.
  destruct (queryAll update session &&
            negb (includesZ (uidList session) (Messages.uid message))).
  { intros H; inversion H; constructor. }
  destruct (unchangedSince update) as [us|] eqn:Hus; cbn [truthyOpt andb].
  - destruct (truthy us) eqn:Ht; cbn [andb].
    + destruct (us <? Messages.modseq message) eqn:Hlt.
      * intros H; inversion H. apply step_conflict with us; auto.
        -- unfold truthy in Ht. apply negb_true_iff, Z.eqb_neq in Ht. exact Ht.
        -- now apply Z.ltb_lt.
      * destruct (switchAction _ _ _ _) as [e|sw] eqn:Hsw; [discriminate|].
        destruct (updated sw) eqn:Hup; cbn [negb]; intros H; inversion H;
          [|constructor].
        eapply step_write; eauto.
        intros r Hr. destruct (negb (silent update) || condstoreEnabled session); auto.
        apply in_app_or in Hr as [Hr|[<-|[]]]; auto.
    + destruct (switchAction _ _ _ _) as [e|sw] eqn:Hsw; [discriminate|].
      destruct (updated sw) eqn:Hup; cbn [negb]; intros H; inversion H;
        [|constructor].
      eapply step_write; eauto.
      intros r Hr. destruct (negb (silent update) || condstoreEnabled session); auto.
      apply in_app_or in Hr as [Hr|[<-|[]]]; auto.
  - destruct (switchAction _ _ _ _) as [e|sw] eqn:Hsw; [discriminate|].
    destruct (updated sw) eqn:Hup; cbn [negb]; intros H; inversion H;
      [|constructor].
    eapply step_write; eauto.
    intros r Hr. destruct (negb (silent update) || condstoreEnabled session); auto.
    apply in_app_or in Hr as [Hr|[<-|[]]]; auto.
Qed.

(** Once allocated, the sequence number is [modifyIndex + 1] and stays so. *)
Lemma getModseq_fixed (o : option Z) :
  o = None \/ o = Some (Mailboxes.modifyIndex mailbox + 1) ->
  getModseq mailbox o = Mailboxes.modifyIndex mailbox + 1.
Proof.
  unfold getModseq, truthyOpt, truthy.
  intros [->| ->]; [reflexivity|].
  cbn [Messages.orElse].
  destruct (Mailboxes.modifyIndex mailbox + 1 =? 0) eqn:E; cbn [negb]; [|reflexivity].
  apply Z.eqb_eq in E. lia.
Qed.

Lemma updateMessages_In (id mb : ObjectId) (u lt : Z) (s : Messages.modifier)
    (tbl : list Messages.t) (r' : Messages.t) :
  In r' (updateMessages id mb u lt s tbl) ->
  In r' tbl \/
  exists r, In r tbl /\ Messages._id r = id /\ Messages.mailbox r = mb
            /\ Messages.uid r = u /\ Messages.modseq r < lt
            /\ r' = Messages.applySet s r.
Proof.
  unfold updateMessages. rewrite in_map_iff. intros (r & Hr & Hin).
  destruct (N.eqb_spec (Messages._id r) id) as [Hid|]; cbn [andb] in Hr;
    [|left; now subst].
  destruct (N.eqb_spec (Messages.mailbox r) mb) as [Hmb|]; cbn [andb] in Hr;
    [|left; now subst].
  destruct (Z.eqb_spec (Messages.uid r) u) as [Hu|]; cbn [andb] in Hr;
    [|left; now subst].
  destruct (Z.ltb_spec (Messages.modseq r) lt) as [Hlt|]; [|left; now subst].
  right. exists r. auto 10.
Qed.

Lemma modseq_applySet (n : Z) (s : Messages.modifier) (r : Messages.t) :
  Messages.modseq (Messages.applySet (Messages.setModseq n s) r) = n.
Proof. reflexivity. Qed.

Lemma loopInv_getModseq (db : Db) (tx : Tx) :
  loopInv mailbox db tx -> getModseq mailbox (newModseq tx) = Mailboxes.modifyIndex mailbox + 1.
Proof.
  intros (_ & H & _). apply getModseq_fixed. tauto.
Qed.

Lemma loopInv_init (db : Db) : loopInv mailbox db (mkTx db None [] [] []).
Proof.
  unfold loopInv; cbn. repeat split; auto. intros e [].
Qed.

Lemma loopInv_step (db : Db) (tx tx' : Tx) (message : Messages.t) :
  loopInv mailbox db tx -> stepOf mailbox update session tx message tx' -> loopInv mailbox db tx'.
Proof.
  intros Hinv Hstep. pose proof (loopInv_getModseq _ _ Hinv) as Hnm.
  destruct Hinv as (H1 & H2 & H3 & H4).
  inversion Hstep; subst; clear Hstep.
  - repeat split; assumption.
  - unfold loopInv; cbn. repeat split; assumption.
  - rewrite Hnm. unfold loopInv; cbn. repeat split.
    + exact H1.
    + right. split; [reflexivity|]. intros E. now apply app_eq_nil in E as [_ E].
    + intros r Hr. apply updateMessages_In in Hr as [Hr|(r0 & _ & _ & _ & _ & _ & ->)];
        [now apply H3|].
      right. apply modseq_applySet.
    + intros e He. apply in_app_or in He as [He|[<-|[]]]; [now apply H4|reflexivity].
Qed.

Lemma loop_loopInv (msgs : list Messages.t) (db : Db) (tx : Tx) :
  forOf (storeMessage mailbox update session) msgs (mkTx db None [] [] []) = inr tx ->
  loopInv mailbox db tx.
Proof.
  apply forOf_invariant; [apply loopInv_init|].
  intros t x t' _ Ht Hb. eapply loopInv_step; eauto using storeMessage_stepOf.
Qed.

(** With unique row identifiers an UPDATE issued for a fetched row can
    only hit that very row, still in its fetched state. *)
Lemma rowsInv_step (db : Db) (tx tx' : Tx) (message : Messages.t) :
  uniqueIds db ->
  Forall Messages.derivedOk (db_Messages db) ->
  In message (db_Messages db) ->
  rowsInv mailbox db tx -> stepOf mailbox update session tx message tx' -> rowsInv mailbox db tx'.
Proof.
  intros Hnd Hall Hm (Hinv & Hok) Hstep.
  split; [eapply loopInv_step; eauto|].
  pose proof (loopInv_getModseq _ _ Hinv) as Hnm.
  destruct Hinv as (H1 & H2 & H3 & H4).
  inversion Hstep; subst; clear Hstep; cbn; auto.
  intros r Hr.
  apply updateMessages_In in Hr as [Hr|(r0 & Hr0 & Hid & _ & _ & Hlt & ->)];
    [now apply Hok|].
  assert (r0 = message) as ->.
  { destruct (H3 r0 Hr0) as [Hin|Heq]; [|lia].
    eapply NoDup_map_inj; eauto. }
  eapply switch_derivedOk; eauto.
Qed.

Lemma loop_rowsInv (msgs : list Messages.t) (db : Db) (tx : Tx) :
  uniqueIds db ->
  Forall Messages.derivedOk (db_Messages db) ->
  (forall m, In m msgs -> In m (db_Messages db)) ->
  forOf (storeMessage mailbox update session) msgs (mkTx db None [] [] []) = inr tx ->
  rowsInv mailbox db tx.
Proof.
  intros Hnd Hall Hsub.
  apply forOf_invariant.
  - split; [apply loopInv_init|]. cbn. now apply Forall_forall.
  - intros t x t' Hx Ht Hb. eapply rowsInv_step; eauto using storeMessage_stepOf.
Qed.

Lemma transaction_inr (msgs : list Messages.t) (db : Db) (tx : Tx) :
  transaction systemFlags mailbox update session msgs db = inr tx ->
  (msgs = [] /\ tx = mkTx db None [] [] [])
  \/ exists tx0 nf,
      msgs <> []
      /\ forOf (storeMessage mailbox update session) msgs (mkTx db None [] [] []) = inr tx0
      /\ mailboxNewFlags systemFlags mailbox update = inr nf
      /\ tx = updateMailbox mailbox tx0 nf.
Proof.
  unfold transaction, transactionBody.
  destruct msgs as [|m r]; cbn [nonEmpty].
  - intros H; inversion H; auto.
  - destruct (forOf _ _ _) as [e|tx0]; [discriminate|].
    destruct (mailboxNewFlags _ _ _) as [e|nf]; [discriminate|].
    intros H; inversion H. right. exists tx0, nf. repeat split; congruence.
Qed.

Lemma updateMailbox_Messages (tx : Tx) (nf : list string) :
  db_Messages (tx_db (updateMailbox mailbox tx nf)) = db_Messages (tx_db tx).
Proof.
  unfold updateMailbox. now destruct (truthyOpt (newModseq tx) || nonEmpty nf).
Qed.

Lemma updateMailbox_entries (tx : Tx) (nf : list string) :
  entries (updateMailbox mailbox tx nf) = entries tx
  /\ writeStream (updateMailbox mailbox tx nf) = writeStream tx
  /\ modified (updateMailbox mailbox tx nf) = modified tx
  /\ newModseq (updateMailbox mailbox tx nf) = newModseq tx.
Proof.
  unfold updateMailbox. now destruct (truthyOpt (newModseq tx) || nonEmpty nf).
Qed.

Lemma findOne_id (tbl : list Mailboxes.t) (id : ObjectId) (mb : Mailboxes.t) :
  Mailboxes.findOne tbl id = Some mb -> Mailboxes._id mb = id.
Proof.
  unfold Mailboxes.findOne. intros H. apply find_some in H as [_ H].
  now apply N.eqb_eq.
Qed.

Lemma findOne_updateMailboxes (tbl : list Mailboxes.t) (id : ObjectId)
    (s : Mailboxes.modifier) (mb : Mailboxes.t) :
  Mailboxes.findOne tbl id = Some mb ->
  Mailboxes.findOne (updateMailboxes id s tbl) id = Some (Mailboxes.applySet s mb).
Proof.
  unfold Mailboxes.findOne, updateMailboxes.
  induction tbl as [|x r IH]; cbn [find map]; [discriminate|].
  destruct (N.eqb_spec (Mailboxes._id x) id) as [Hx|Hx].
  - intros H; inversion H; subst x. cbn [Mailboxes.applySet Mailboxes._id].
    now rewrite Hx, N.eqb_refl.
  - apply N.eqb_neq in Hx. now rewrite Hx.
Qed.

(** The whole transaction: rows written carry [modifyIndex + 1], so do
    the entries, and once a write has been issued the mailbox row is
    moved to that number. *)
Lemma transaction_modseq (msgs : list Messages.t) (db : Db) (tx : Tx) :
  0 <= Mailboxes.modifyIndex mailbox ->
  Mailboxes.findOne (db_Mailboxes db) (Mailboxes._id mailbox) = Some mailbox ->
  transaction systemFlags mailbox update session msgs db = inr tx ->
  (forall r, In r (db_Messages (tx_db tx)) ->
     In r (db_Messages db) \/ Messages.modseq r = Mailboxes.modifyIndex mailbox + 1)
  /\ (forall e, In e (entries tx) -> entry_modseq e = Mailboxes.modifyIndex mailbox + 1)
  /\ (entries tx <> [] \/ db_Messages (tx_db tx) <> db_Messages db ->
      exists mb', Mailboxes.findOne (db_Mailboxes (tx_db tx)) (Mailboxes._id mailbox) = Some mb'
                  /\ Mailboxes.modifyIndex mb' = Mailboxes.modifyIndex mailbox + 1).
Proof.
  intros Hmi Hfind Htx.
  apply transaction_inr in Htx as [[_ ->]|(tx0 & nf & _ & Hloop & _ & ->)].
  - cbn. repeat split; auto; tauto.
  - apply loop_loopInv in Hloop. destruct Hloop as (H1 & H2 & H3 & H4).
    rewrite updateMailbox_Messages.
    destruct (updateMailbox_entries tx0 nf) as (-> & _ & _ & _).
    repeat split; auto.
    intros Hw.
    destruct H2 as [(_ & Hdb & He & _)|(Hnm & _)].
    { exfalso. destruct Hw as [Hw|Hw]; [tauto|]. apply Hw. now rewrite Hdb. }
    unfold updateMailbox. rewrite Hnm. cbn [truthyOpt].
    assert (truthy (Mailboxes.modifyIndex mailbox + 1) = true) as ->.
    { unfold truthy. apply negb_true_iff, Z.eqb_neq. lia. }
    cbn [orb tx_db db_Mailboxes]. rewrite H1.
    erewrite findOne_updateMailboxes by exact Hfind.
    eexists. split; reflexivity.
Qed.

(** The whole transaction keeps the derived columns of every row in step
    with its flags. *)
Lemma transaction_derivedOk (msgs : list Messages.t) (db : Db) (tx : Tx) :
  uniqueIds db ->
  Forall Messages.derivedOk (db_Messages db) ->
  (forall m, In m msgs -> In m (db_Messages db)) ->
  transaction systemFlags mailbox update session msgs db = inr tx ->
  Forall Messages.derivedOk (db_Messages (tx_db tx)).
Proof.
  intros Hnd Hall Hsub Htx.
  apply transaction_inr in Htx as [[_ ->]|(tx0 & nf & _ & Hloop & _ & ->)];
    [exact Hall|].
  rewrite updateMailbox_Messages. apply Forall_forall.
  eapply loop_rowsInv; eauto.
Qed.

Lemma selectMessages_In (db : Db) (m : Messages.t) :
  In m (selectMessages checkRangeQuery mailbox update session db) ->
  In m (db_Messages db) /\ Messages.mailbox m = Mailboxes._id mailbox.
Proof.
  unfold selectMessages. rewrite sortByUid_In, filter_In.
  intros (Hin & H). apply andb_true_iff in H as [H _].
  split; [exact Hin|]. now apply N.eqb_eq.
Qed.

End Loop.

(* ------------------------------------------------------------------ *)
(** ** The handler                                                     *)
(* ------------------------------------------------------------------ *)

(** Symbolic execution of the handler: unfold the combinators, then
    reduce the world after every decision taken on a collaborator. *)
Ltac run_handler :=
  unfold onStore, tryCatch, bind, await, acquire, findOne, release, getDb, putDb,
    emit, ret, throw, unitResult.

Ltac reduce_world := cbn [fst snd w_db lockHeld trace].

Ltac finish_catch e :=
  destruct e as [?r| |]; reduce_world; try reflexivity;
  destruct (nonEmptyString r); reflexivity.

Section Handler.
Variable systemFlags : list string.
Variable checkRangeQuery : list Z -> Z -> bool.

Lemma forEach_emit (f : Response -> Event) (ws : list Response) (w : World) :
  forEach (fun r => emit (f r)) ws w
  = (inr tt, mkWorld (w_db w) (lockHeld w) (trace w ++ map f ws)).
Proof.
  revert w. induction ws as [|x r IH]; intros w; cbn [forEach map].
  - unfold ret. rewrite app_nil_r. now destruct w.
  - unfold bind, emit at 1. rewrite IH. cbn. now rewrite <- app_assoc.
Qed.

(** The database after the handler is the one before, or the one the
    transaction committed. *)
Lemma onStore_db (env : Env) (mailboxId : ObjectId) (update : Update)
    (session : Session) (w : World) :
  w_db (snd (onStore systemFlags checkRangeQuery env mailboxId update session w)) = w_db w
  \/ exists mailbox tx,
       wsp env = None
       /\ Mailboxes.findOne (db_Mailboxes (w_db w)) mailboxId = Some mailbox
       /\ transaction systemFlags mailbox update session
            (selectMessages checkRangeQuery mailbox update session (w_db w)) (w_db w)
          = inr tx
       /\ w_db (snd (onStore systemFlags checkRangeQuery env mailboxId update session w))
          = tx_db tx.
Proof.
  run_handler.
  destruct (wsp env) as [[e|[[b resp] ws]]|] eqn:Hwsp; reduce_world;
    [left; reflexivity| |].
  { left. pose proof (forEach_emit EvWrite ws) as Hws. unfold emit in Hws.
    rewrite Hws. reflexivity. }
  destruct (refreshSession env) as [e|]; reduce_world; [left; finish_catch e|].
  destruct (acquireLock env) as [e|]; reduce_world; [left; finish_catch e|].
  destruct (findOneError env) as [e|]; reduce_world; [left; finish_catch e|].
  destruct (Mailboxes.findOne (db_Mailboxes (w_db w)) mailboxId) as [mailbox|] eqn:Hfind;
    reduce_world; [|left; reflexivity].
  destruct (prepare env) as [e|]; reduce_world; [left; finish_catch e|].
  destruct (transaction systemFlags mailbox update session
              (selectMessages checkRangeQuery mailbox update session (w_db w)) (w_db w))
    as [e|tx] eqn:Htx; reduce_world.
  - left.
    destruct (releaseLock env), (updateStorageUsed env); reduce_world; finish_catch e.
  - right. exists mailbox, tx. repeat split; auto.
    destruct (releaseLock env), (updateStorageUsed env); reduce_world;
      destruct (nonEmpty (entries tx)); reduce_world; try reflexivity;
      destruct (addEntries env) as [ae|]; reduce_world; try reflexivity;
      finish_catch ae.
Qed.
End Handler.

Ltac absurd_catch e :=
  destruct e as [?r| |]; reduce_world; try discriminate;
  destruct (nonEmptyString r); discriminate.

(** Success is only reported after a committed transaction, whose
    database, conflicts and responses are what the handler leaves and
    hands over; the notifier is called with its entries, if any. *)
Lemma onStore_Success_inv (systemFlags : list string)
    (checkRangeQuery : list Z -> Z -> bool) (env : Env) (mailboxId : ObjectId)
    (update : Update) (session : Session) (w : World)
    (ok : bool) (md : list Z) (ws : list Response) :
  fst (onStore systemFlags checkRangeQuery env mailboxId update session w)
  = inr (Success ok md ws) ->
  exists mailbox tx,
    Mailboxes.findOne (db_Mailboxes (w_db w)) mailboxId = Some mailbox
    /\ transaction systemFlags mailbox update session
         (selectMessages checkRangeQuery mailbox update session (w_db w)) (w_db w)
       = inr tx
    /\ w_db (snd (onStore systemFlags checkRangeQuery env mailboxId update session w))
       = tx_db tx
    /\ ok = true /\ md = modified tx /\ ws = writeStream tx
    /\ (forall es,
          In (EvAddEntries es)
             (trace (snd (onStore systemFlags checkRangeQuery env mailboxId update
                            session w))) ->
          In (EvAddEntries es) (trace w) \/ (es = entries tx /\ es <> [])).
Proof.
  run_handler.
  destruct (wsp env) as [[e|[[b resp] rs]]|]; reduce_world; try discriminate.
  { pose proof (forEach_emit EvWrite rs) as Hws. unfold emit in Hws.
    rewrite Hws. reduce_world. discriminate. }
  destruct (refreshSession env) as [e|]; reduce_world; [absurd_catch e|].
  destruct (acquireLock env) as [e|]; reduce_world; [absurd_catch e|].
  destruct (findOneError env) as [e|]; reduce_world; [absurd_catch e|].
  destruct (Mailboxes.findOne (db_Mailboxes (w_db w)) mailboxId) as [mailbox|];
    reduce_world; [|discriminate].
  destruct (prepare env) as [e|]; reduce_world; [absurd_catch e|].
  destruct (transaction systemFlags mailbox update session
              (selectMessages checkRangeQuery mailbox update session (w_db w)) (w_db w))
    as [e|tx] eqn:Htx; reduce_world.
  { destruct (releaseLock env), (updateStorageUsed env); reduce_world; absurd_catch e. }
  destruct (releaseLock env), (updateStorageUsed env); reduce_world;
    destruct (entries tx) as [|en ens] eqn:Hent; cbn [nonEmpty]; reduce_world;
    try (destruct (addEntries env) as [ae|]; reduce_world; [absurd_catch ae|]);
    intros H; inversion H; subst; exists mailbox, tx;
    (repeat split; auto);
    intros es Hes; rewrite <- ?app_assoc in Hes;
    (apply in_app_or in Hes as [Hes|Hes]; [now left|right]);
    cbn [app In] in Hes;
    repeat (destruct Hes as [Hes|Hes];
            [first [discriminate Hes
                   |inversion Hes; subst es; rewrite Hent; split;
                    [reflexivity|discriminate]]|]);
    destruct Hes.
Qed.

(** The events appended by a run that stopped short of the notifier. *)
Ltac no_entries Hes :=
  repeat rewrite <- app_assoc in Hes;
  apply in_app_or in Hes;
  destruct Hes as [Hes|Hes]; [left; exact Hes|];
  cbn [app In] in Hes;
  repeat (destruct Hes as [Hes|Hes]; [discriminate Hes|]);
  destruct Hes.

Ltac no_entries_catch e Hes :=
  destruct e as [?r| |]; reduce_world;
  [destruct (nonEmptyString r); reduce_world| |];
  intros es Hes; no_entries Hes.

(** The notifier is only called with the entries of a committed
    transaction, and only when there are some. *)
Lemma onStore_notifies (systemFlags : list string)
    (checkRangeQuery : list Z -> Z -> bool) (env : Env) (mailboxId : ObjectId)
    (update : Update) (session : Session) (w : World) :
  forall es,
    In (EvAddEntries es)
       (trace (snd (onStore systemFlags checkRangeQuery env mailboxId update session w))) ->
    In (EvAddEntries es) (trace w)
    \/ exists mailbox tx,
         Mailboxes.findOne (db_Mailboxes (w_db w)) mailboxId = Some mailbox
         /\ transaction systemFlags mailbox update session
              (selectMessages checkRangeQuery mailbox update session (w_db w)) (w_db w)
            = inr tx
         /\ es = entries tx /\ es <> [].
Proof.
  run_handler.
  destruct (wsp env) as [[e|[[b resp] rs]]|]; reduce_world.
  { intros es Hes. no_entries Hes. }
  { pose proof (forEach_emit EvWrite rs) as Hws. unfold emit in Hws.
    rewrite Hws. reduce_world. intros es Hes.
    rewrite <- app_assoc in Hes. apply in_app_or in Hes as [Hes|Hes]; [now left|].
    cbn [app In] in Hes. destruct Hes as [Hes|Hes]; [discriminate Hes|].
    apply in_map_iff in Hes as (x & Hx & _). discriminate Hx. }
  destruct (refreshSession env) as [e|]; reduce_world; [no_entries_catch e Hes|].
  destruct (acquireLock env) as [e|]; reduce_world; [no_entries_catch e Hes|].
  destruct (findOneError env) as [e|]; reduce_world; [no_entries_catch e Hes|].
  destruct (Mailboxes.findOne (db_Mailboxes (w_db w)) mailboxId) as [mailbox|]
    eqn:Hfind; reduce_world;
    [|cbn [nonEmptyString]; reduce_world; intros es Hes; no_entries Hes].
  destruct (prepare env) as [e|]; reduce_world; [no_entries_catch e Hes|].
  destruct (transaction systemFlags mailbox update session
              (selectMessages checkRangeQuery mailbox update session (w_db w)) (w_db w))
    as [e|tx] eqn:Htx; reduce_world.
  { destruct (releaseLock env), (updateStorageUsed env); reduce_world;
      no_entries_catch e Hes. }
  destruct (releaseLock env), (updateStorageUsed env); reduce_world;
    destruct (entries tx) as [|en ens] eqn:Hent; cbn [nonEmpty]; reduce_world;
    try (intros es Hes; no_entries Hes);
    (destruct (addEntries env) as [ae|]; reduce_world;
     [destruct ae as [?r| |]; reduce_world;
      [destruct (nonEmptyString r); reduce_world| |]|]);
    intros es Hes; repeat rewrite <- app_assoc in Hes;
    (apply in_app_or in Hes as [Hes|Hes]; [now left|right]);
    exists mailbox, tx; rewrite Hent;
    (split; [reflexivity|]); (split; [exact Htx|]);
    cbn [app In] in Hes;
    repeat (destruct Hes as [Hes|Hes];
            [first [discriminate Hes
                   |inversion Hes; split; [reflexivity|discriminate]]|]);
    destruct Hes.
Qed.

(* ------------------------------------------------------------------ *)
(** ** Derived columns and sequence numbers of a whole command         *)
(* ------------------------------------------------------------------ *)

(** C1. Whatever the action (set, add, remove) and whichever rows the
    command writes, a table whose rows all have [unseen], [flagged],
    [undeleted] and [draft] in step with their flags is left in that
    state by [onStore]: [unseen] is the absence of \Seen, [flagged] the
    presence of \Flagged, [undeleted] the absence of \Deleted and
    [draft] the presence of \Draft in the stored flag list. *)
Theorem onStore_derived_columns (systemFlags : list string)
    (checkRangeQuery : list Z -> Z -> bool) (env : Env) (mailboxId : ObjectId)
    (update : Update) (session : Session) (w : World)
    (Hids : uniqueIds (w_db w))
    (Hok : Forall Messages.derivedOk (db_Messages (w_db w))) :
  Forall Messages.derivedOk
    (db_Messages
       (w_db (snd (onStore systemFlags checkRangeQuery env mailboxId update session w)))).
Proof.
  destruct (onStore_db systemFlags checkRangeQuery env mailboxId update session w)
    as [->|(mailbox & tx & _ & _ & Htx & ->)]; [exact Hok|].
  eapply transaction_derivedOk
    with (msgs := selectMessages checkRangeQuery mailbox update session (w_db w));
    eauto.
  intros m Hm. now apply selectMessages_In in Hm.
Qed.

Lemma onStore_derived_columns_witness :
  Forall Messages.derivedOk
    (db_Messages
       (w_db (snd (onStore Sample.systemFlags Sample.checkRangeQuery Sample.env 1%N
                     Sample.addSeen Sample.session Sample.world)))).
Proof.
  apply onStore_derived_columns.
  - unfold uniqueIds. cbn. repeat (constructor; [cbn; intuition discriminate|]).
    constructor.
  - cbn. repeat constructor.
Defined.

(** C2. Within one invocation, for a counter [modifyIndex] that is not
    negative and below [2^53] (where the sum on doubles is exact),
    every row that is written receives the same new modification
    sequence number, the mailbox's [modifyIndex] as read at the start
    plus one; the entries handed to the notifier carry that number; and
    when a row has been written the mailbox row carries exactly that
    number when the handler is done. *)
Theorem onStore_single_modseq (systemFlags : list string)
    (checkRangeQuery : list Z -> Z -> bool) (env : Env) (mailboxId : ObjectId)
    (update : Update) (session : Session) (w : World) (mailbox : Mailboxes.t)
    (Hfind : Mailboxes.findOne (db_Mailboxes (w_db w)) mailboxId = Some mailbox)
    (Hmi : 0 <= Mailboxes.modifyIndex mailbox)
    (Hexact : exactIncrement (Mailboxes.modifyIndex mailbox)) :
  let w' := snd (onStore systemFlags checkRangeQuery env mailboxId update session w) in
  (forall r, In r (db_Messages (w_db w')) ->
     In r (db_Messages (w_db w))
     \/ Messages.modseq r = Mailboxes.modifyIndex mailbox + 1)
  /\ (forall es, In (EvAddEntries es) (trace w') ->
        In (EvAddEntries es) (trace w)
        \/ forall e, In e es -> entry_modseq e = Mailboxes.modifyIndex mailbox + 1)
  /\ (db_Messages (w_db w') <> db_Messages (w_db w) ->
      exists mb', Mailboxes.findOne (db_Mailboxes (w_db w')) mailboxId = Some mb'
                  /\ Mailboxes.modifyIndex mb' = Mailboxes.modifyIndex mailbox + 1).
Proof.
  intros w'. subst w'.
  pose proof (findOne_id _ _ _ Hfind) as Hid.
  split; [|split].
  - destruct (onStore_db systemFlags checkRangeQuery env mailboxId update session w)
      as [->|(mailbox' & tx & _ & Hfind' & Htx & ->)]; [tauto|].
    assert (mailbox' = mailbox) as -> by congruence. subst mailboxId.
    now apply (transaction_modseq systemFlags mailbox update session _ _ _ Hmi Hfind Htx).
  - intros es Hes.
    apply onStore_notifies in Hes as [Hes|(mailbox' & tx & Hfind' & Htx & -> & _)];
      [now left|right].
    assert (mailbox' = mailbox) as -> by congruence. subst mailboxId.
    now apply (transaction_modseq systemFlags mailbox update session _ _ _ Hmi Hfind Htx).
  - destruct (onStore_db systemFlags checkRangeQuery env mailboxId update session w)
      as [->|(mailbox' & tx & _ & Hfind' & Htx & ->)]; [tauto|].
    assert (mailbox' = mailbox) as -> by congruence. subst mailboxId.
    intros Hw.
    apply (transaction_modseq systemFlags mailbox update session _ _ _ Hmi Hfind Htx).
    now right.
Qed.

Lemma onStore_single_modseq_witness :
  let w' := snd (onStore Sample.systemFlags Sample.checkRangeQuery Sample.env 1%N
                   Sample.addSeen Sample.session Sample.world) in
  (forall r, In r (db_Messages (w_db w')) ->
     In r (db_Messages (w_db Sample.world)) \/ Messages.modseq r = 7 + 1)
  /\ (forall es, In (EvAddEntries es) (trace w') ->
        In (EvAddEntries es) (trace Sample.world)
        \/ forall e, In e es -> entry_modseq e = 7 + 1)
  /\ (db_Messages (w_db w') <> db_Messages (w_db Sample.world) ->
      exists mb', Mailboxes.findOne (db_Mailboxes (w_db w')) 1%N = Some mb'
                  /\ Mailboxes.modifyIndex mb' = 7 + 1).
Proof.
  apply (onStore_single_modseq Sample.systemFlags Sample.checkRangeQuery Sample.env
           1%N Sample.addSeen Sample.session Sample.world Sample.inbox).
  - reflexivity.
  - cbn. lia.
  - unfold exactIncrement. cbn. lia.
Defined.

(** The scenario of the mailbox with messages UID 1-3 without flags:
    [add \Seen] on UID 1 and 2 gives both the flag and [unseen = false],
    leaves UID 3 alone and moves [modifyIndex] from 7 to 8. *)
Example add_Seen_to_two_of_three :
  let r := onStore Sample.systemFlags Sample.checkRangeQuery Sample.env 1%N
             Sample.addSeen Sample.session Sample.world in
  fst r = inr (Success true []
                 [mkResponse 1 (Some 1) ["\Seen"] None;
                  mkResponse 2 (Some 2) ["\Seen"] None])
  /\ w_db (snd r)
     = mkDb [Mailboxes.mk 1%N 8 [] None]
         [Sample.row 10%N 1%N 1 ["\Seen"] 8; Sample.row 11%N 1%N 2 ["\Seen"] 8;
          Sample.row 12%N 1%N 3 [] 5]
  /\ lockHeld (snd r) = false.
Proof. vm_compute. repeat split; reflexivity. Qed.

(* ------------------------------------------------------------------ *)
(** ** The [unchangedSince] guard                                      *)
(* ------------------------------------------------------------------ *)

(** A guard other than 0: a row changed after it is left alone and its
    uid is reported. *)
Lemma storeMessage_conflict (mailbox : Mailboxes.t) (update : Update)
    (session : Session) (tx : Tx) (message : Messages.t) (us : Z) :
  unchangedSince update = Some us -> us <> 0 -> us < Messages.modseq message ->
  (queryAll update session && negb (includesZ (uidList session) (Messages.uid message)))
    = false ->
  storeMessage mailbox update session tx message
  = inr (mkTx (tx_db tx) (newModseq tx) (modified tx ++ [Messages.uid message])
              (writeStream tx) (entries tx)).
Proof.
  intros Hus Hnz Hlt Hq. unfold storeMessage. rewrite Hq, Hus.
  cbn [truthyOpt]. unfold truthy.
  apply Z.eqb_neq in Hnz. rewrite Hnz. apply Z.ltb_lt in Hlt. rewrite Hlt.
  reflexivity.
Qed.

(** C3. With [unchangedSince = 0] the guard is not applied: the rows
    with uid 1 and 2, whose [modseq] 3 and 4 exceed 0, are written and
    the list of conflicts handed to the callback is empty. *)
Theorem unchangedSince_zero_ignored :
  let r := onStore Sample.systemFlags Sample.checkRangeQuery Sample.env 1%N
             Sample.addSeenUnchangedSince0 Sample.session Sample.world in
  fst r = inr (Success true []
                 [mkResponse 1 (Some 1) ["\Seen"] None;
                  mkResponse 2 (Some 2) ["\Seen"] None])
  /\ db_Messages (w_db (snd r))
     = [Sample.row 10%N 1%N 1 ["\Seen"] 8; Sample.row 11%N 1%N 2 ["\Seen"] 8;
        Sample.row 12%N 1%N 3 [] 5].
Proof. vm_compute. split; reflexivity. Qed.

(* ------------------------------------------------------------------ *)
(** ** The lock                                                        *)
(* ------------------------------------------------------------------ *)

(** Once the candidate rows have been read the lock is released before
    the callback is reached, unless [releaseLock] itself fails. *)
Lemma onStore_releases_after_select (systemFlags : list string)
    (checkRangeQuery : list Z -> Z -> bool) (env : Env) (mailboxId : ObjectId)
    (update : Update) (session : Session) (w : World) (mailbox : Mailboxes.t) :
  wsp env = None -> refreshSession env = None -> acquireLock env = None ->
  findOneError env = None ->
  Mailboxes.findOne (db_Mailboxes (w_db w)) mailboxId = Some mailbox ->
  prepare env = None -> releaseLock env = None ->
  lockHeld (snd (onStore systemFlags checkRangeQuery env mailboxId update session w))
  = false.
Proof.
  intros Hwsp Href Hacq Hfe Hfind Hprep Hrel.
  run_handler. rewrite Hwsp, Href. reduce_world. rewrite Hacq. reduce_world.
  rewrite Hfe, Hfind. reduce_world. rewrite Hprep. reduce_world. rewrite Hrel.
  destruct (transaction systemFlags mailbox update session _ _) as [e|tx];
    reduce_world; destruct (updateStorageUsed env); reduce_world.
  1,2: finish_catch e.
  all: destruct (nonEmpty (entries tx)); reduce_world; try reflexivity;
    destruct (addEntries env) as [ae|]; reduce_world; try reflexivity;
    finish_catch ae.
Qed.

(** C5. The lock is kept when the mailbox does not exist, and when the
    query for the candidate rows cannot be built: the handler answers
    without a call to [releaseLock]. *)
Theorem lock_not_released_on_early_failure :
  let r1 := onStore Sample.systemFlags Sample.checkRangeQuery Sample.env 2%N
              Sample.addSeen Sample.session Sample.world in
  let r2 := onStore Sample.systemFlags Sample.checkRangeQuery Sample.envPrepareFails
              1%N Sample.addSeen Sample.session Sample.world in
  (fst r1 = inr (Rejected "NONEXISTENT")
   /\ lockHeld (snd r1) = true
   /\ In EvAcquireLock (trace (snd r1)) /\ ~ In EvReleaseLock (trace (snd r1)))
  /\ (fst r2 = inr (Failure (OtherError "query"))
      /\ lockHeld (snd r2) = true
      /\ In EvAcquireLock (trace (snd r2)) /\ ~ In EvReleaseLock (trace (snd r2))).
Proof.
  vm_compute. repeat split; auto; intros H;
    repeat (destruct H as [H|H]; [discriminate|]); exact H.
Qed.

(* ------------------------------------------------------------------ *)
(** ** No candidate rows                                               *)
(* ------------------------------------------------------------------ *)

(** C10. When the query for the candidates returns no row, the handler
    writes nothing (the database, with the mailbox's flags and
    [modifyIndex], is as before), does not call the notifier, and hands
    success with an empty list of conflicts and an empty response
    stream to the callback. *)
Theorem onStore_no_candidates (systemFlags : list string)
    (checkRangeQuery : list Z -> Z -> bool) (env : Env) (mailboxId : ObjectId)
    (update : Update) (session : Session) (w : World) (mailbox : Mailboxes.t)
    (Hwsp : wsp env = None) (Href : refreshSession env = None)
    (Hacq : acquireLock env = None) (Hfe : findOneError env = None)
    (Hfind : Mailboxes.findOne (db_Mailboxes (w_db w)) mailboxId = Some mailbox)
    (Hprep : prepare env = None)
    (Hsel : selectMessages checkRangeQuery mailbox update session (w_db w) = []) :
  let r := onStore systemFlags checkRangeQuery env mailboxId update session w in
  fst r = inr (Success true [] [])
  /\ w_db (snd r) = w_db w
  /\ (forall ev, In ev (trace (snd r)) ->
        In ev (trace w) \/ (ev <> EvFire /\ forall es, ev <> EvAddEntries es)).
Proof.
  run_handler. rewrite Hwsp, Href. reduce_world. rewrite Hacq. reduce_world.
  rewrite Hfe, Hfind. reduce_world. rewrite Hprep. reduce_world. rewrite Hsel.
  unfold transaction. cbn [nonEmpty]. reduce_world.
  destruct (releaseLock env), (updateStorageUsed env); reduce_world;
    cbn [entries nonEmpty tx_db modified writeStream]; reduce_world;
    (split; [reflexivity|split; [reflexivity|]]);
    intros ev Hev; rewrite <- ?app_assoc in Hev;
    (apply in_app_or in Hev as [Hev|Hev]; [now left|right]);
    cbn in Hev;
    repeat (destruct Hev as [<-|Hev]; [split; [discriminate|intros es; discriminate]|]);
    destruct Hev.
Qed.

Lemma onStore_no_candidates_witness :
  let r := onStore Sample.systemFlags Sample.checkRangeQuery Sample.env 1%N
             Sample.addSeenNowhere Sample.session Sample.world in
  fst r = inr (Success true [] [])
  /\ w_db (snd r) = w_db Sample.world
  /\ (forall ev, In ev (trace (snd r)) ->
        In ev (trace Sample.world) \/ (ev <> EvFire /\ forall es, ev <> EvAddEntries es)).
Proof.
  apply (onStore_no_candidates Sample.systemFlags Sample.checkRangeQuery Sample.env
           1%N Sample.addSeenNowhere Sample.session Sample.world Sample.inbox);
    reflexivity.
Defined.

(* ------------------------------------------------------------------ *)
(** ** The set action                                                  *)
(* ------------------------------------------------------------------ *)

Lemma NoDup_uniq (l : list string) : NoDup (uniq l).
Proof.
  induction l as [|x r IH]; cbn [uniq]; constructor.
  - rewrite filter_In. intros [_ H]. now rewrite String.eqb_refl in H.
  - now apply NoDup_filter.
Qed.

Lemma filter_length_le {A} (p : A -> bool) (l : list A) :
  (List.length (filter p l) <= List.length l)%nat.
Proof.
  induction l as [|x r IH]; cbn [filter List.length]; [lia|].
  destruct (p x); cbn [List.length]; lia.
Qed.

Lemma uniq_length (l : list string) : (List.length (uniq l) <= List.length l)%nat.
Proof.
  induction l as [|x r IH]; cbn [uniq List.length]; [lia|].
  pose proof (filter_length_le (fun y => negb (String.eqb x y)) (uniq r)). lia.
Qed.

(** A list without repetition is its own [Set]. *)
Lemma uniq_NoDup (l : list string) : NoDup l -> uniq l = l.
Proof.
  induction 1 as [|x r Hx Hr IH]; cbn [uniq]; [reflexivity|].
  rewrite IH. f_equal.
  clear - Hx. induction r as [|y r IHr]; cbn [filter]; [reflexivity|].
  destruct (String.eqb_spec x y) as [->|Hne]; cbn [negb].
  - exfalso. apply Hx. now left.
  - f_equal. apply IHr. intros H. apply Hx. now right.
Qed.

Lemma existsb_negb_includes (ex val : list string) :
  existsb (fun f => negb (includes ex (getFlag f))) val = false
  <-> forall x, In x (map getFlag val) -> In x ex.
Proof.
  induction val as [|f r IH]; cbn [existsb map In].
  - split; [intros _ x []|reflexivity].
  - rewrite orb_false_iff, negb_false_iff, includes_In, IH.
    split.
    + intros [Hf Hr] x [<-|Hx]; auto.
    + intros H. split; [apply H; now left|intros x Hx; apply H; now right].
Qed.

(** The stored flag list is the input without repetitions, whatever
    [updated] says. *)
Lemma caseSet_flags (val mflags : list string) :
  message_flags (caseSet val mflags) = uniq val.
Proof. reflexivity. Qed.

(** On an input without two flags of the same normal form, [set] is an
    update exactly when the normalised flag sets differ. *)
Lemma caseSet_updated_iff (val mflags : list string) :
  NoDup (map getFlag val) ->
  updated (caseSet val mflags) = false
  <-> (forall x, In x (map getFlag val) <-> In x (map getFlag mflags)).
Proof.
  intros Hnd. unfold caseSet. cbn [updated].
  rewrite orb_false_iff, negb_false_iff, Nat.eqb_eq, existsb_negb_includes.
  unfold existingFlags. split.
  - intros [Hlen Hincl] x. split; intros Hx.
    + apply uniq_In. now apply Hincl.
    + apply uniq_In in Hx. revert x Hx.
      apply (NoDup_length_incl Hnd); [rewrite length_map; lia|exact Hincl].
  - intros Heq. split.
    + rewrite <- (length_map getFlag val).
      apply Nat.le_antisymm; apply NoDup_incl_length;
        auto using NoDup_uniq; intros x Hx.
      * apply Heq. now apply uniq_In.
      * apply uniq_In. now apply Heq.
    + intros x Hx. apply uniq_In. now apply Heq.
Qed.

(** C6. [FLAGS (\Seen \Seen)] on a message whose flags are [\Seen]:
    the stored list would again be [\Seen], yet the command counts as
    an update, the row and the mailbox get a new sequence number and
    the notifier is called. The same happens when [FLAGS (a A)] is
    stored on a message whose flags are exactly [a A]. *)
Theorem set_same_flags_counts_as_update :
  let r := onStore Sample.systemFlags Sample.checkRangeQuery Sample.env 1%N
             Sample.setSeenTwice Sample.session (mkWorld Sample.dbSeen false []) in
  (updated (caseSet ["\Seen"; "\Seen"] ["\Seen"]) = true
   /\ message_flags (caseSet ["\Seen"; "\Seen"] ["\Seen"]) = ["\Seen"])
  /\ (db_Messages (w_db (snd r)) = [Sample.row 10%N 1%N 1 ["\Seen"] 8]
      /\ db_Mailboxes (w_db (snd r)) = [Mailboxes.mk 1%N 8 [] None]
      /\ In (EvAddEntries [mkEntry "s1" 1 ["\Seen"] 10%N 8]) (trace (snd r)))
  /\ (updated (caseSet ["a"; "A"] ["a"; "A"]) = true
      /\ message_flags (caseSet ["a"; "A"] ["a"; "A"]) = ["a"; "A"]).
Proof.
  vm_compute. repeat split; auto 10.
Qed.

(* ------------------------------------------------------------------ *)
(** ** Removing \Deleted                                               *)
(* ------------------------------------------------------------------ *)

(** C8. A remove that takes \Deleted off a message writes
    [undeleted = true] whatever the mailbox, and writes
    [searchable = true] only when the mailbox's special use is neither
    \Junk nor \Trash; in a \Junk or \Trash mailbox the [searchable]
    column is not part of the update and keeps its value. *)
Theorem remove_Deleted_searchable (su : option string) (val : list string)
    (m : Messages.t) (nm : Z)
    (Hin : In "\Deleted" (Messages.flags m))
    (Hout : ~ In "\Deleted" (message_flags (caseRemove su val (Messages.flags m)))) :
  let sw := caseRemove su val (Messages.flags m) in
  let m' := Messages.applySet (Messages.setModseq nm (dollarSet sw)) m in
  updated sw = true
  /\ Messages.undeleted m' = true
  /\ (su = Some "\Junk" \/ su = Some "\Trash" ->
      Messages.set_searchable (dollarSet sw) = None
      /\ Messages.searchable m' = Messages.searchable m)
  /\ (su <> Some "\Junk" -> su <> Some "\Trash" -> Messages.searchable m' = true).
Proof.
  apply includes_In in Hin.
  rewrite <- includes_In in Hout. apply not_true_is_false in Hout.
  unfold caseRemove in *. cbn [message_flags updated dollarSet] in *.
  set (fu := uniq (map getFlag val)) in *.
  rewrite includes_uniq, includes_filter, Hin in Hout. cbn [andb] in Hout.
  apply negb_false_iff in Hout.
  set (old := filter (fun f => includes fu (getFlag f)) (Messages.flags m)).
  assert (Hold : includes old "\Deleted" = true).
  { unfold old. now rewrite includes_filter, Hin, Hout. }
  assert (Hne : nonEmpty old = true).
  { destruct old; [discriminate Hold|reflexivity]. }
  rewrite Hne, Hold, !orb_true_r. cbn [orb].
  split; [reflexivity|]. split; [reflexivity|]. split.
  - intros [->| ->]; split; reflexivity.
  - intros HJ HT.
    cbn [Messages.applySet Messages.setModseq Messages.set_searchable
         Messages.searchable Messages.orElse].
    destruct su as [s|]; [|reflexivity].
    cbn [includes].
    destruct (String.eqb_spec "\Junk" s) as [<-|_]; [congruence|].
    destruct (String.eqb_spec "\Trash" s) as [<-|_]; [congruence|].
    reflexivity.
Qed.

Lemma remove_Deleted_searchable_witness :
  let sw := caseRemove (Some "\Trash") ["\deleted"] (Messages.flags Sample.deleted) in
  let m' := Messages.applySet (Messages.setModseq 8 (dollarSet sw)) Sample.deleted in
  updated sw = true
  /\ Messages.undeleted m' = true
  /\ (Some "\Trash" = Some "\Junk" \/ Some "\Trash" = Some "\Trash" ->
      Messages.set_searchable (dollarSet sw) = None
      /\ Messages.searchable m' = Messages.searchable Sample.deleted)
  /\ (Some "\Trash" <> Some "\Junk" -> Some "\Trash" <> Some "\Trash" ->
      Messages.searchable m' = true).
Proof.
  apply (remove_Deleted_searchable (Some "\Trash") ["\deleted"] Sample.deleted 8).
  - cbn. now left.
  - cbn. intros [H|[]]. discriminate H.
Defined.

(* ------------------------------------------------------------------ *)
(** ** The vocabulary of the mailbox                                   *)
(* ------------------------------------------------------------------ *)

Section Vocabulary.
Variable systemFlags : list string.
Variable mailbox : Mailboxes.t.

Local Abbreviation isNew := (isNewFlag systemFlags mailbox).

(** When the loop over the input ends normally it has collected the
    flags the vocabulary lacks, in order. *)
Lemma collect_inr (v acc nf : list string) :
  forOf (collectFlag systemFlags mailbox) v acc = inr nf -> nf = acc ++ filter isNew v.
Proof.
  revert acc. induction v as [|f r IH]; intros acc; cbn [forOf filter].
  - intros H; inversion H. now rewrite app_nil_r.
  - unfold collectFlag at 1.
    destruct (100 <=? _)%nat; [discriminate|].
    fold (isNew f). destruct (isNew f); intros H; apply IH in H; subst nf;
      [now rewrite <- app_assoc|reflexivity].
Qed.

Lemma collect_below (v acc : list string) :
  (List.length (mailboxFlags systemFlags mailbox) + List.length acc
   + List.length (filter isNew v) < 100)%nat ->
  forOf (collectFlag systemFlags mailbox) v acc = inr (acc ++ filter isNew v).
Proof.
  revert acc. induction v as [|f r IH]; intros acc; cbn [forOf filter].
  - now rewrite app_nil_r.
  - intros Hlt. unfold collectFlag at 1. fold (isNew f).
    destruct (Nat.leb_spec 100
                (List.length (mailboxFlags systemFlags mailbox) + List.length acc))
      as [Hge|_].
    { exfalso. destruct (isNew f); cbn [List.length] in Hlt; lia. }
    destruct (isNew f); cbn [List.length] in Hlt.
    + rewrite IH; [now rewrite <- app_assoc|]. rewrite length_app. cbn. lia.
    + apply IH. lia.
Qed.

Lemma collect_above (v acc : list string) :
  filter isNew v <> [] ->
  (100 < List.length (mailboxFlags systemFlags mailbox) + List.length acc
         + List.length (filter isNew v))%nat ->
  forOf (collectFlag systemFlags mailbox) v acc
  = inl (TypeError "Mailbox flags exceeds 100").
Proof.
  revert acc. induction v as [|f r IH]; intros acc; cbn [forOf filter].
  - congruence.
  - intros Hne Hgt. unfold collectFlag at 1. fold (isNew f).
    destruct (Nat.leb_spec 100
                (List.length (mailboxFlags systemFlags mailbox) + List.length acc))
      as [_|Hlt]; [reflexivity|].
    destruct (isNew f); cbn [List.length] in Hgt.
    + apply IH.
      * intros E. rewrite E in Hgt. cbn in Hgt. lia.
      * rewrite length_app. cbn. lia.
    + now apply IH.
Qed.

Lemma mailboxFlags_length :
  List.length (mailboxFlags systemFlags mailbox)
  = (List.length systemFlags + List.length (Mailboxes.flags mailbox))%nat.
Proof. unfold mailboxFlags. now rewrite length_map, length_app. Qed.
End Vocabulary.

(** For the three actions of STORE the message loop does not throw. *)
Lemma storeMessage_known_action (mailbox : Mailboxes.t) (update : Update)
    (session : Session) (tx : Tx) (message : Messages.t) :
  (forall name, action update <> ActOther name) ->
  exists tx', storeMessage mailbox update session tx message = inr tx'.
Proof.
  intros Hact. unfold storeMessage.
  destruct (queryAll update session && _); [eauto|].
  destruct (truthyOpt (unchangedSince update) && _); [eauto|].
  destruct (action update) eqn:Ha; cbn [switchAction];
    try (match goal with |- context [updated ?sw] => destruct (updated sw) end;
         cbn [negb]; eauto).
  now destruct (Hact name).
Qed.

Lemma forOf_storeMessage_known_action (mailbox : Mailboxes.t) (update : Update)
    (session : Session) (msgs : list Messages.t) (tx : Tx) :
  (forall name, action update <> ActOther name) ->
  exists tx', forOf (storeMessage mailbox update session) msgs tx = inr tx'.
Proof.
  intros Hact. revert tx. induction msgs as [|m r IH]; intros tx; cbn [forOf]; [eauto|].
  destruct (storeMessage_known_action mailbox update session tx m Hact) as [tx' ->].
  apply IH.
Qed.

(* ------------------------------------------------------------------ *)
(** ** The handler around the transaction                              *)
(* ------------------------------------------------------------------ *)

Section Around.
Variable systemFlags : list string.
Variable checkRangeQuery : list Z -> Z -> bool.
Variable env : Env.
Variable mailboxId : ObjectId.
Variable update : Update.
Variable session : Session.
Variable w : World.
Variable mailbox : Mailboxes.t.

Hypothesis Hwsp : wsp env = None.
Hypothesis Href : refreshSession env = None.
Hypothesis Hacq : acquireLock env = None.
Hypothesis Hfe : findOneError env = None.
Hypothesis Hfind : Mailboxes.findOne (db_Mailboxes (w_db w)) mailboxId = Some mailbox.
Hypothesis Hprep : prepare env = None.

Local Abbreviation run :=
  (onStore systemFlags checkRangeQuery env mailboxId update session w).
Local Abbreviation result :=
  (transaction systemFlags mailbox update session
     (selectMessages checkRangeQuery mailbox update session (w_db w)) (w_db w)).

(** A transaction that throws is rolled back and its error is what the
    callback gets. *)
Lemma onStore_transaction_throws (msg : string) :
  result = inl (TypeError msg) ->
  fst run = inr (Failure (TypeError msg)) /\ w_db (snd run) = w_db w.
Proof.
  intros Htx. run_handler. rewrite Hwsp, Href. reduce_world. rewrite Hacq. reduce_world.
  rewrite Hfe, Hfind. reduce_world. rewrite Hprep. reduce_world. rewrite Htx.
  destruct (releaseLock env), (updateStorageUsed env); reduce_world; split; reflexivity.
Qed.

(** A transaction that commits is followed by success when the notifier
    takes the entries. *)
Lemma onStore_transaction_commits (tx : Tx) :
  result = inr tx ->
  addEntries env = None ->
  fst run = inr (Success true (modified tx) (writeStream tx))
  /\ w_db (snd run) = tx_db tx.
Proof.
  intros Htx Hadd. run_handler. rewrite Hwsp, Href. reduce_world. rewrite Hacq.
  reduce_world. rewrite Hfe, Hfind. reduce_world. rewrite Hprep. reduce_world.
  rewrite Htx, Hadd.
  destruct (releaseLock env), (updateStorageUsed env); reduce_world;
    destruct (nonEmpty (entries tx)); reduce_world; split; reflexivity.
Qed.
End Around.

(** C4, as the code has it. For an add or set command with at least
    one candidate row, counting the system flags together with the
    mailbox's own flags, and counting a new flag once however often the
    input writes it: when the command brings at least one new flag and
    the count with the new flags exceeds 100, the command fails with
    the capacity error and the database is as before; when the input
    writes no new flag twice and the count with the new flags stays
    below 100 the command is not rejected; and no failing command
    leaves a write behind. *)
Theorem capacity_check (systemFlags : list string)
    (checkRangeQuery : list Z -> Z -> bool) (env : Env) (mailboxId : ObjectId)
    (update : Update) (session : Session) (w : World) (mailbox : Mailboxes.t)
    (Hwsp : wsp env = None) (Href : refreshSession env = None)
    (Hacq : acquireLock env = None) (Hfe : findOneError env = None)
    (Hfind : Mailboxes.findOne (db_Mailboxes (w_db w)) mailboxId = Some mailbox)
    (Hprep : prepare env = None) (Hadd : addEntries env = None)
    (Hact : action update = ActSet \/ action update = ActAdd)
    (Hsel : selectMessages checkRangeQuery mailbox update session (w_db w) <> []) :
  let r := onStore systemFlags checkRangeQuery env mailboxId update session w in
  let growth := vocabularyGrowth systemFlags mailbox update in
  let total := (List.length systemFlags + List.length (Mailboxes.flags mailbox)
                + List.length (uniq growth))%nat in
  (growth <> [] -> (100 < total)%nat ->
   fst r = inr (Failure (TypeError "Mailbox flags exceeds 100"))
   /\ w_db (snd r) = w_db w)
  /\ (NoDup growth -> (total < 100)%nat ->
      exists md ws, fst r = inr (Success true md ws))
  /\ (forall e, fst r = inr (Failure e) -> w_db (snd r) = w_db w).
Proof.
  intros r growth total.
  assert (Hknown : forall name, action update <> ActOther name).
  { intros name. destruct Hact as [E|E]; rewrite E; discriminate. }
  assert (Hnew : mailboxNewFlags systemFlags mailbox update
                 = forOf (collectFlag systemFlags mailbox) (value update) []).
  { unfold mailboxNewFlags. destruct Hact as [E|E]; now rewrite E. }
  destruct (forOf_storeMessage_known_action mailbox update session
              (selectMessages checkRangeQuery mailbox update session (w_db w))
              (mkTx (w_db w) None [] [] []) Hknown) as [tx0 Hloop].
  assert (Hbody : transaction systemFlags mailbox update session
                    (selectMessages checkRangeQuery mailbox update session (w_db w))
                    (w_db w)
                  = match mailboxNewFlags systemFlags mailbox update with
                    | inl e => inl e
                    | inr nf => inr (updateMailbox mailbox tx0 nf)
                    end).
  { unfold transaction, transactionBody. rewrite Hloop.
    destruct (selectMessages checkRangeQuery mailbox update session (w_db w));
      [congruence|reflexivity]. }
  subst total. rewrite <- mailboxFlags_length.
  split; [|split].
  - intros Hne Hgt. pose proof (uniq_length growth) as Hle. subst growth.
    apply (onStore_transaction_throws systemFlags checkRangeQuery env mailboxId update
             session w mailbox); auto.
    rewrite Hbody, Hnew, collect_above; auto.
    cbn [List.length]. unfold vocabularyGrowth in Hgt, Hle. lia.
  - intros Hnd Hlt. rewrite (uniq_NoDup _ Hnd) in Hlt. subst growth.
    rewrite Hnew, collect_below in Hbody
      by (cbn [List.length]; unfold vocabularyGrowth in Hlt; lia).
    destruct (onStore_transaction_commits systemFlags checkRangeQuery env mailboxId
                update session w mailbox Hwsp Href Hacq Hfe Hfind Hprep _ Hbody Hadd)
      as [Hr _].
    eauto.
  - intros e He.
    destruct (mailboxNewFlags systemFlags mailbox update) as [err|nf].
    + destruct (onStore_db systemFlags checkRangeQuery env mailboxId update session w)
        as [Hdb|(mailbox' & tx & _ & Hfind' & Htx & _)]; [exact Hdb|].
      assert (mailbox' = mailbox) as -> by congruence. congruence.
    + destruct (onStore_transaction_commits systemFlags checkRangeQuery env mailboxId
                  update session w mailbox Hwsp Href Hacq Hfe Hfind Hprep _ Hbody Hadd)
        as [Hr _].
      subst r. congruence.
Qed.

Lemma capacity_check_witness :
  let r := onStore Sample.systemFlags Sample.checkRangeQuery Sample.env 1%N
             Sample.addTwoNew Sample.session (mkWorld Sample.dbCrowded false []) in
  let growth := vocabularyGrowth Sample.systemFlags Sample.crowded Sample.addTwoNew in
  let total := (List.length Sample.systemFlags
                + List.length (Mailboxes.flags Sample.crowded)
                + List.length (uniq growth))%nat in
  (growth <> [] -> (100 < total)%nat ->
   fst r = inr (Failure (TypeError "Mailbox flags exceeds 100"))
   /\ w_db (snd r) = w_db (mkWorld Sample.dbCrowded false []))
  /\ (NoDup growth -> (total < 100)%nat ->
      exists md ws, fst r = inr (Success true md ws))
  /\ (forall e, fst r = inr (Failure e) ->
      w_db (snd r) = w_db (mkWorld Sample.dbCrowded false [])).
Proof.
  apply (capacity_check Sample.systemFlags Sample.checkRangeQuery Sample.env 1%N
           Sample.addTwoNew Sample.session (mkWorld Sample.dbCrowded false [])
           Sample.crowded);
    try reflexivity.
  - right. reflexivity.
  - vm_compute. discriminate.
Defined.

(** C4, as stated, fails twice. With 94 custom flags and two new ones
    the custom and new flags number 96, yet the command is rejected,
    the five system flags being counted too. And with 94 custom flags
    and six new ones (100 together) a command without candidate rows is
    not rejected: the capacity check is never reached. *)
Lemma capacity_counterexample :
  let r := onStore Sample.systemFlags Sample.checkRangeQuery Sample.env 1%N
             Sample.addTwoNew Sample.session (mkWorld Sample.dbCrowded false []) in
  let r' := onStore Sample.systemFlags Sample.checkRangeQuery Sample.env 1%N
              Sample.addSixNewNowhere Sample.session
              (mkWorld Sample.dbCrowded false []) in
  ((List.length (Mailboxes.flags Sample.crowded)
    + List.length (vocabularyGrowth Sample.systemFlags Sample.crowded Sample.addTwoNew)
    = 96)%nat
   /\ fst r = inr (Failure (TypeError "Mailbox flags exceeds 100")))
  /\ ((List.length (Mailboxes.flags Sample.crowded)
       + List.length (vocabularyGrowth Sample.systemFlags Sample.crowded
                        Sample.addSixNewNowhere)
       = 100)%nat
      /\ fst r' = inr (Success true [] [])
      /\ w_db (snd r') = Sample.dbCrowded).
Proof.
  vm_compute. repeat split; reflexivity.
Qed.

(** An input may write a new flag several times, and the check counts
    [newFlags] before line 382 removes repetitions: with 5 system and
    90 custom flags, an add of one new flag written six times is
    rejected although the vocabulary would hold 96 names. *)
Example capacity_counts_repetitions :
  let growth := vocabularyGrowth Sample.systemFlags Scenario.ninety
                  Scenario.addFreshSixTimes in
  let r := onStore Sample.systemFlags Sample.checkRangeQuery Sample.env 1%N
             Scenario.addFreshSixTimes Sample.session
             (mkWorld Scenario.dbNinety false []) in
  uniq growth = ["fresh"]
  /\ (List.length Sample.systemFlags + List.length (Mailboxes.flags Scenario.ninety)
      + List.length (uniq growth) = 96)%nat
  /\ fst r = inr (Failure (TypeError "Mailbox flags exceeds 100"))
  /\ w_db (snd r) = Scenario.dbNinety.
Proof.
  vm_compute. repeat split; reflexivity.
Qed.

(* ------------------------------------------------------------------ *)
(** ** Commands that update no message                                 *)
(* ------------------------------------------------------------------ *)

Lemma loop_no_update (mailbox : Mailboxes.t) (update : Update) (session : Session)
    (msgs : list Messages.t) (tx tx' : Tx) :
  (forall m sw, In m msgs ->
     switchAction (Mailboxes.specialUse mailbox) (value update) (Messages.flags m)
       (action update) = inr sw ->
     updated sw = false) ->
  forOf (storeMessage mailbox update session) msgs tx = inr tx' ->
  tx_db tx' = tx_db tx /\ newModseq tx' = newModseq tx
  /\ writeStream tx' = writeStream tx /\ entries tx' = entries tx.
Proof.
  intros Hup.
  apply (forOf_invariant
           (fun t => tx_db t = tx_db tx /\ newModseq t = newModseq tx
                     /\ writeStream t = writeStream tx /\ entries t = entries tx)).
  - auto.
  - intros t x t' Hx Ht Hb. apply storeMessage_stepOf in Hb.
    inversion Hb; subst; auto.
    match goal with
    | Hsw : switchAction _ _ _ _ = inr ?sw, Ht : updated ?sw = true |- _ =>
        rewrite (Hup x sw Hx Hsw) in Ht; discriminate Ht
    end.
Qed.

(** C9, as the code has it. An add or set command with at least one
    candidate row, none of which yields [updated], that brings flags the
    vocabulary lacks and is answered with success: the mailbox row gets
    those flags appended and keeps its [modifyIndex], no message row
    changes, the response stream is empty and the notifier is not
    called. *)
Theorem vocabulary_grows_without_update (systemFlags : list string)
    (checkRangeQuery : list Z -> Z -> bool) (env : Env) (mailboxId : ObjectId)
    (update : Update) (session : Session) (w : World) (mailbox : Mailboxes.t)
    (ok : bool) (md : list Z) (ws : list Response)
    (Hfind : Mailboxes.findOne (db_Mailboxes (w_db w)) mailboxId = Some mailbox)
    (Hact : action update = ActSet \/ action update = ActAdd)
    (Hsel : selectMessages checkRangeQuery mailbox update session (w_db w) <> [])
    (Hup : forall m sw,
        In m (selectMessages checkRangeQuery mailbox update session (w_db w)) ->
        switchAction (Mailboxes.specialUse mailbox) (value update) (Messages.flags m)
          (action update) = inr sw ->
        updated sw = false)
    (Hnew : vocabularyGrowth systemFlags mailbox update <> [])
    (Hok : fst (onStore systemFlags checkRangeQuery env mailboxId update session w)
           = inr (Success ok md ws)) :
  let w' := snd (onStore systemFlags checkRangeQuery env mailboxId update session w) in
  ws = []
  /\ db_Messages (w_db w') = db_Messages (w_db w)
  /\ Mailboxes.findOne (db_Mailboxes (w_db w')) mailboxId
     = Some (Mailboxes.mk (Mailboxes._id mailbox) (Mailboxes.modifyIndex mailbox)
               (uniq (Mailboxes.flags mailbox
                      ++ vocabularyGrowth systemFlags mailbox update))
               (Mailboxes.specialUse mailbox))
  /\ (forall es, In (EvAddEntries es) (trace w') -> In (EvAddEntries es) (trace w)).
Proof.
  intros w'. subst w'.
  apply onStore_Success_inv in Hok
    as (mailbox' & tx & Hfind' & Htx & -> & _ & _ & -> & Htrace).
  assert (mailbox' = mailbox) as -> by congruence.
  apply transaction_inr in Htx as [[Hnil _]|(tx0 & nf & _ & Hloop & Hnf & ->)];
    [contradiction|].
  apply (loop_no_update _ _ _ _ _ _ Hup) in Hloop as (Hdb & Hnm & Hws & Hen).
  cbn [tx_db newModseq writeStream entries] in Hdb, Hnm, Hws, Hen.
  assert (nf = vocabularyGrowth systemFlags mailbox update) as ->.
  { unfold mailboxNewFlags in Hnf.
    destruct Hact as [E|E]; rewrite E in Hnf; now apply collect_inr in Hnf. }
  destruct (updateMailbox_entries mailbox tx0 (vocabularyGrowth systemFlags mailbox update))
    as (Hen' & Hws' & _ & _).
  rewrite Hen' in Htrace. rewrite Hws', Hws, updateMailbox_Messages, Hdb.
  split; [reflexivity|]. split; [reflexivity|]. split.
  - unfold updateMailbox. rewrite Hnm. cbn [truthyOpt orb].
    destruct (vocabularyGrowth systemFlags mailbox update) as [|g gs] eqn:Hg;
      [contradiction|].
    cbn [nonEmpty tx_db db_Mailboxes]. rewrite Hdb.
    pose proof (findOne_id _ _ _ Hfind) as Hid. subst mailboxId.
    erewrite findOne_updateMailboxes by exact Hfind.
    reflexivity.
  - intros es Hes. destruct (Htrace es Hes) as [H|[-> H]]; [exact H|].
    now rewrite Hen in H.
Qed.

Lemma vocabulary_grows_without_update_witness :
  let w' := snd (onStore Sample.systemFlags Sample.checkRangeQuery Sample.env 1%N
                   Sample.addFresh Sample.session (mkWorld Sample.dbFresh false [])) in
  (@nil Response) = []
  /\ db_Messages (w_db w') = db_Messages (w_db (mkWorld Sample.dbFresh false []))
  /\ Mailboxes.findOne (db_Mailboxes (w_db w')) 1%N
     = Some (Mailboxes.mk (Mailboxes._id Sample.inbox)
               (Mailboxes.modifyIndex Sample.inbox)
               (uniq (Mailboxes.flags Sample.inbox
                      ++ vocabularyGrowth Sample.systemFlags Sample.inbox
                           Sample.addFresh))
               (Mailboxes.specialUse Sample.inbox))
  /\ (forall es, In (EvAddEntries es) (trace w') ->
        In (EvAddEntries es) (trace (mkWorld Sample.dbFresh false []))).
Proof.
  apply (vocabulary_grows_without_update Sample.systemFlags Sample.checkRangeQuery
           Sample.env 1%N Sample.addFresh Sample.session
           (mkWorld Sample.dbFresh false []) Sample.inbox true [] []).
  - reflexivity.
  - right. reflexivity.
  - vm_compute. discriminate.
  - intros m sw [<-|[]] H. vm_compute in H. now inversion H.
  - vm_compute. discriminate.
  - reflexivity.
Defined.

(** C9, as stated, fails twice. Without candidate rows every candidate
    vacuously yields no update, the input brings a new flag, and the
    vocabulary is left as it was. And in a mailbox whose vocabulary has
    reached 100 names, the one candidate yields no update, the input
    brings a new flag, and the command is rejected, the vocabulary left
    as it was. *)
Lemma vocabulary_not_extended_counterexample :
  let r := onStore Sample.systemFlags Sample.checkRangeQuery Sample.env 1%N
             Sample.addFreshNowhere Sample.session (mkWorld Sample.db false []) in
  let r' := onStore Sample.systemFlags Sample.checkRangeQuery Sample.env 1%N
              Sample.addFresh Sample.session (mkWorld Sample.dbFull false []) in
  (selectMessages Sample.checkRangeQuery Sample.inbox Sample.addFreshNowhere
     Sample.session Sample.db = []
   /\ vocabularyGrowth Sample.systemFlags Sample.inbox Sample.addFreshNowhere
      = ["fresh"]
   /\ fst r = inr (Success true [] [])
   /\ db_Mailboxes (w_db (snd r)) = [Sample.inbox])
  /\ (selectMessages Sample.checkRangeQuery Sample.full Sample.addFresh
        Sample.session Sample.dbFull = [Sample.row 10%N 1%N 1 ["fresh"] 3]
      /\ updated (caseAdd ["fresh"] ["fresh"]) = false
      /\ vocabularyGrowth Sample.systemFlags Sample.full Sample.addFresh = ["fresh"]
      /\ fst r' = inr (Failure (TypeError "Mailbox flags exceeds 100"))
      /\ db_Mailboxes (w_db (snd r')) = [Sample.full]).
Proof.
  vm_compute. repeat split; reflexivity.
Qed.

(* ------------------------------------------------------------------ *)
(** ** Adding the same flags twice                                     *)
(* ------------------------------------------------------------------ *)

Lemma forOf_invariant_prefix {A S} (P : list A -> S -> Prop) (body : S -> A -> Err + S) :
  forall (xs done : list A) (s s' : S),
    P done s ->
    (forall pre t x t', In x xs -> P pre t -> body t x = inr t' -> P (pre ++ [x]) t') ->
    forOf body xs s = inr s' -> P (done ++ xs) s'.
Proof.
  induction xs as [|x r IH]; cbn [forOf]; intros done s s' Hs Hstep Hrun.
  - inversion Hrun; subst. now rewrite app_nil_r.
  - destruct (body s x) as [e|t] eqn:Hb; [discriminate|].
    replace (done ++ x :: r) with ((done ++ [x]) ++ r) by now rewrite <- app_assoc.
    apply (IH (done ++ [x]) t s').
    + apply (Hstep done s x t); auto. now left.
    + intros pre t0 y t' Hy. apply Hstep. now right.
    + exact Hrun.
Qed.

(** After an add every input flag is on the message, up to case. *)
Lemma caseAdd_covers (val fl : list string) :
  updated (caseAdd val (message_flags (caseAdd val fl))) = false.
Proof.
  unfold caseAdd at 1. cbn [updated]. rewrite nonEmpty_filter_includes.
  apply existsb_negb_includes. intros x Hx.
  apply in_map_iff in Hx as (f & <- & Hf).
  unfold existingFlags at 1. apply uniq_In.
  unfold caseAdd. cbn [message_flags].
  destruct (includes (existingFlags fl) (getFlag f)) eqn:E.
  - apply includes_In, uniq_In, in_map_iff in E as (g & Hg & Hin).
    rewrite <- Hg. apply in_map, uniq_In, in_or_app. now left.
  - apply in_map, uniq_In, in_or_app. right.
    apply filter_In. split; [exact Hf|]. now rewrite E.
Qed.

Section Idempotence.
Variable systemFlags : list string.
Variable checkRangeQuery : list Z -> Z -> bool.
Variable update : Update.
Variable session : Session.
Hypothesis Hadd : action update = ActAdd.

Lemma storeMessage_quiet (mailbox : Mailboxes.t) (tx : Tx) (m : Messages.t) :
  quiet update session m = true ->
  exists md,
    storeMessage mailbox update session tx m
    = inr (mkTx (tx_db tx) (newModseq tx) md (writeStream tx) (entries tx)).
Proof.
  unfold quiet, storeMessage. rewrite Hadd. cbn [switchAction].
  destruct (queryAll update session && _).
  { intros _. exists (modified tx). now destruct tx. }
  destruct (truthyOpt (unchangedSince update) && _); [eauto|].
  cbn [orb]. intros ->. cbn [negb]. exists (modified tx). now destruct tx.
Qed.

Lemma storeMessage_loud (mailbox : Mailboxes.t) (tx : Tx) (m : Messages.t) :
  quiet update session m = false ->
  updated (caseAdd (value update) (Messages.flags m)) = true
  /\ exists ws,
      storeMessage mailbox update session tx m
      = inr (mkTx
               (mkDb (db_Mailboxes (tx_db tx))
                  (updateMessages (Messages._id m) (Mailboxes._id mailbox)
                     (Messages.uid m) (getModseq mailbox (newModseq tx))
                     (Messages.setModseq (getModseq mailbox (newModseq tx))
                        (dollarSet (caseAdd (value update) (Messages.flags m))))
                     (db_Messages (tx_db tx))))
               (Some (getModseq mailbox (newModseq tx)))
               (modified tx) ws
               (entries tx ++
                  [mkEntry (session_id session) (Messages.uid m)
                     (message_flags (caseAdd (value update) (Messages.flags m)))
                     (Messages._id m) (getModseq mailbox (newModseq tx))])).
Proof.
  unfold quiet, storeMessage. rewrite Hadd. cbn [switchAction].
  destruct (queryAll update session && _); [discriminate|].
  destruct (truthyOpt (unchangedSince update) && _); [discriminate|].
  cbn [orb]. intros H. apply negb_false_iff in H. rewrite H. cbn [negb].
  split; [reflexivity|]. eauto.
Qed.

(** A loop over quiet rows allocates no sequence number and writes
    nothing. *)
Lemma loop_quiet (mailbox : Mailboxes.t) (msgs : list Messages.t) :
  (forall m, In m msgs -> quiet update session m = true) ->
  forall tx, exists md,
    forOf (storeMessage mailbox update session) msgs tx
    = inr (mkTx (tx_db tx) (newModseq tx) md (writeStream tx) (entries tx)).
Proof.
  induction msgs as [|m r IH]; intros Hq tx; cbn [forOf].
  - exists (modified tx). now destruct tx.
  - destruct (storeMessage_quiet mailbox tx m (Hq m (or_introl eq_refl))) as [md ->].
    destruct (IH (fun x Hx => Hq x (or_intror Hx))
                 (mkTx (tx_db tx) (newModseq tx) md (writeStream tx) (entries tx)))
      as [md' ->].
    now exists md'.
Qed.
Lemma updateMessages_ids (id mb : ObjectId) (u lt : Z) (s : Messages.modifier)
    (tbl : list Messages.t) :
  map Messages._id (updateMessages id mb u lt s tbl) = map Messages._id tbl.
Proof.
  unfold updateMessages. rewrite map_map. apply map_ext.
  intros r. now destruct (_ && _).
Qed.

Lemma caseAdd_written_flags (val fl : list string) (n : Z) (m : Messages.t) :
  updated (caseAdd val fl) = true ->
  Messages.flags (Messages.applySet (Messages.setModseq n (dollarSet (caseAdd val fl))) m)
  = message_flags (caseAdd val fl).
Proof.
  unfold caseAdd. cbn [updated dollarSet message_flags]. intros ->.
  now destruct (_ || _).
Qed.

Lemma addInv_step (mailbox : Mailboxes.t) (db : Db) (pre : list Messages.t)
    (tx tx' : Tx) (x : Messages.t) :
  uniqueIds db ->
  In x (db_Messages db) ->
  Messages.mailbox x = Mailboxes._id mailbox ->
  Messages.modseq x <= Mailboxes.modifyIndex mailbox ->
  addInv mailbox update session db pre tx ->
  storeMessage mailbox update session tx x = inr tx' ->
  addInv mailbox update session db (pre ++ [x]) tx'.
Proof.
  intros Hnd Hx Hmb Hms (H0 & H1 & H2 & H3) Hstep.
  assert (H0' : loopInv mailbox db tx').
  { eapply loopInv_step; eauto using storeMessage_stepOf. }
  pose proof (loopInv_getModseq _ _ _ H0) as Hnm.
  destruct (quiet update session x) eqn:Hq.
  - destruct (storeMessage_quiet mailbox tx x Hq) as [md E].
    rewrite E in Hstep. apply inr_eq in Hstep. subst tx'. clear E.
    unfold addInv. cbn [tx_db].
    split; [exact H0'|]. split; [exact H1|]. split; [exact H2|].
    intros m Hm. apply in_app_or in Hm as [Hm|[<-|[]]]; auto.
  - destruct (storeMessage_loud mailbox tx x Hq) as (Hup & ws & E).
    rewrite E in Hstep. apply inr_eq in Hstep. subst tx'. clear E.
    rewrite Hnm in *. unfold addInv. cbn [tx_db db_Messages].
    split; [exact H0'|]. split; [now rewrite updateMessages_ids|]. split.
    + intros r Hr.
      apply updateMessages_In in Hr as [Hr|(r0 & Hr0 & Hid & _ & _ & Hlt & ->)];
        [now apply H2|].
      right. split; [apply modseq_applySet|].
      destruct (H2 r0 Hr0) as [Hin|[Heq _]]; [|lia].
      assert (r0 = x) as -> by (eapply NoDup_map_inj; eauto).
      rewrite caseAdd_written_flags by exact Hup. apply caseAdd_covers.
    + intros m Hm. apply in_app_or in Hm as [Hm|[<-|[]]].
      * destruct (H3 m Hm) as [Hqm|Hall]; [now left|right].
        intros r Hr Hid.
        apply updateMessages_In in Hr as [Hr|(r0 & _ & _ & _ & _ & _ & ->)];
          [now apply Hall|apply modseq_applySet].
      * right. intros r Hr Hid. unfold updateMessages in Hr.
        apply in_map_iff in Hr as (r0 & Hr & Hr0).
        destruct (_ && _) eqn:Hc in Hr; subst r; [apply modseq_applySet|].
        destruct (H2 r0 Hr0) as [Hin|[Heq _]]; [|exact Heq].
        assert (r0 = x) as -> by (eapply NoDup_map_inj; eauto).
        exfalso. rewrite N.eqb_refl, Z.eqb_refl, Hmb, N.eqb_refl in Hc.
        cbn [andb] in Hc. apply Z.ltb_ge in Hc. lia.
Qed.

Lemma loop_addInv (mailbox : Mailboxes.t) (db : Db) (msgs : list Messages.t) (tx : Tx) :
  uniqueIds db ->
  (forall m, In m msgs ->
     In m (db_Messages db) /\ Messages.mailbox m = Mailboxes._id mailbox
     /\ Messages.modseq m <= Mailboxes.modifyIndex mailbox) ->
  forOf (storeMessage mailbox update session) msgs (mkTx db None [] [] []) = inr tx ->
  addInv mailbox update session db msgs tx.
Proof.
  intros Hnd Hmsgs Hloop.
  apply (forOf_invariant_prefix (addInv mailbox update session db)
           (storeMessage mailbox update session) msgs [] _ tx) in Hloop; auto.
  - unfold addInv. cbn [tx_db]. split; [apply loopInv_init|].
    split; [reflexivity|]. split; [now left|]. intros m [].
  - intros pre t x t' Hx Hinv Hb.
    destruct (Hmsgs x Hx) as (Hin & Hmb & Hms).
    eapply addInv_step; eauto.
Qed.

Lemma selectMessages_In_iff (mailbox : Mailboxes.t) (db : Db) (m : Messages.t) :
  In m (selectMessages checkRangeQuery mailbox update session db)
  <-> In m (db_Messages db)
      /\ Messages.mailbox m = Mailboxes._id mailbox
      /\ (queryAll update session
          || checkRangeQuery (messages update) (Messages.uid m)) = true.
Proof.
  unfold selectMessages. rewrite sortByUid_In, filter_In, andb_true_iff, N.eqb_eq.
  tauto.
Qed.

(** The mailbox row as the first transaction leaves it. *)
Lemma updateMailbox_findOne (mailbox mailbox1 : Mailboxes.t) (db : Db) (tx0 : Tx)
    (nf : list string) :
  db_Mailboxes (tx_db tx0) = db_Mailboxes db ->
  Mailboxes.findOne (db_Mailboxes db) (Mailboxes._id mailbox) = Some mailbox ->
  Mailboxes.findOne (db_Mailboxes (tx_db (updateMailbox mailbox tx0 nf)))
    (Mailboxes._id mailbox) = Some mailbox1 ->
  Mailboxes._id mailbox1 = Mailboxes._id mailbox
  /\ Mailboxes.flags mailbox1
     = (if nonEmpty nf then uniq (Mailboxes.flags mailbox ++ nf)
        else Mailboxes.flags mailbox).
Proof.
  intros Hdb Hfind. unfold updateMailbox.
  destruct (truthyOpt (newModseq tx0)) eqn:Ht; cbn [orb].
  - cbn [tx_db db_Mailboxes]. rewrite Hdb.
    erewrite findOne_updateMailboxes by exact Hfind.
    intros H; inversion H; subst mailbox1. cbn. split; [reflexivity|].
    now destruct (nonEmpty nf).
  - destruct (nonEmpty nf) eqn:Hn.
    + cbn [tx_db db_Mailboxes]. rewrite Hdb.
      erewrite findOne_updateMailboxes by exact Hfind.
      intros H; inversion H; subst mailbox1. cbn. split; reflexivity.
    + rewrite Hdb, Hfind. intros H; inversion H; subst mailbox1. split; reflexivity.
Qed.

Lemma filter_nil {A} (p : A -> bool) (l : list A) :
  (forall x, In x l -> p x = false) -> filter p l = [].
Proof.
  induction l as [|x r IH]; intros H; cbn [filter]; [reflexivity|].
  rewrite (H x (or_introl eq_refl)). apply IH. intros y Hy. apply H. now right.
Qed.

(** Once the vocabulary has been extended with what an input brings,
    the same input brings nothing. *)
Lemma vocabularyGrowth_twice (mailbox mailbox1 : Mailboxes.t) :
  Mailboxes.flags mailbox1
  = (if nonEmpty (vocabularyGrowth systemFlags mailbox update)
     then uniq (Mailboxes.flags mailbox ++ vocabularyGrowth systemFlags mailbox update)
     else Mailboxes.flags mailbox) ->
  vocabularyGrowth systemFlags mailbox1 update = [].
Proof.
  intros Hfl.
  assert (Hold : forall g, In g (Mailboxes.flags mailbox) -> In g (Mailboxes.flags mailbox1)).
  { intros g Hg. rewrite Hfl. destruct (nonEmpty _); [|exact Hg].
    apply uniq_In, in_or_app. now left. }
  assert (Hnew : forall g, In g (vocabularyGrowth systemFlags mailbox update) ->
                           In g (Mailboxes.flags mailbox1)).
  { intros g Hg. rewrite Hfl.
    destruct (vocabularyGrowth systemFlags mailbox update) as [|a r]; [destruct Hg|].
    cbn [nonEmpty]. apply uniq_In, in_or_app. now right. }
  unfold vocabularyGrowth at 1. apply filter_nil. intros f Hf.
  unfold isNewFlag, mailboxFlags. apply negb_false_iff, includes_In.
  rewrite map_app. apply in_or_app.
  destruct (isNewFlag systemFlags mailbox f) eqn:E.
  - right. apply in_map, Hnew. unfold vocabularyGrowth. apply filter_In. auto.
  - unfold isNewFlag, mailboxFlags in E. apply negb_false_iff, includes_In in E.
    rewrite map_app in E. apply in_app_or in E as [E|E]; [now left|right].
    apply in_map_iff in E as (g & <- & Hg). apply in_map, Hold, Hg.
Qed.

(** After a committed add, every candidate of the same command is
    quiet. *)
Lemma add_candidates_quiet (mailbox mailbox1 : Mailboxes.t) (db : Db) (tx1 : Tx) :
  uniqueIds db -> modseqBehind mailbox db ->
  Mailboxes.findOne (db_Mailboxes db) (Mailboxes._id mailbox) = Some mailbox ->
  transaction systemFlags mailbox update session
    (selectMessages checkRangeQuery mailbox update session db) db = inr tx1 ->
  Mailboxes._id mailbox1 = Mailboxes._id mailbox ->
  forall m,
    In m (selectMessages checkRangeQuery mailbox1 update session (tx_db tx1)) ->
    quiet update session m = true.
Proof.
  intros Hnd Hbound Hfind Htx Hid m Hm.
  assert (Hmb : In mailbox (db_Mailboxes db)).
  { unfold Mailboxes.findOne in Hfind. now apply find_some in Hfind. }
  apply selectMessages_In_iff in Hm as (Hin & Hbox & Hsel). rewrite Hid in Hbox.
  apply transaction_inr in Htx as [[Hnil ->]|(tx0 & nf & _ & Hloop & _ & ->)].
  - exfalso. cbn [tx_db] in Hin.
    assert (In m (selectMessages checkRangeQuery mailbox update session db))
      by (apply selectMessages_In_iff; auto).
    rewrite Hnil in H. destruct H.
  - rewrite updateMailbox_Messages in Hin.
    apply loop_addInv in Hloop as (_ & _ & H2 & H3); auto.
    + destruct (H2 m Hin) as [Hold|[_ Hcov]].
      * assert (Hcand : In m (selectMessages checkRangeQuery mailbox update session db))
          by (apply selectMessages_In_iff; auto).
        destruct (H3 m Hcand) as [Hq|Hall]; [exact Hq|].
        specialize (Hall m Hin eq_refl).
        specialize (Hbound m Hold Hbox). lia.
      * unfold quiet. rewrite Hcov. apply orb_true_r.
    + intros x Hx. apply selectMessages_In_iff in Hx as (Hx & Hxb & _).
      repeat split; auto.
Qed.

(** The same add applied to what a committed add left: the loop
    allocates no sequence number and writes no row, and the transaction,
    when it does not throw, leaves the database as it found it. *)
Lemma add_twice_transaction (mailbox mailbox1 : Mailboxes.t) (db : Db) (tx1 : Tx) :
  uniqueIds db -> modseqBehind mailbox db ->
  Mailboxes.findOne (db_Mailboxes db) (Mailboxes._id mailbox) = Some mailbox ->
  transaction systemFlags mailbox update session
    (selectMessages checkRangeQuery mailbox update session db) db = inr tx1 ->
  Mailboxes.findOne (db_Mailboxes (tx_db tx1)) (Mailboxes._id mailbox) = Some mailbox1 ->
  (exists md,
     forOf (storeMessage mailbox1 update session)
       (selectMessages checkRangeQuery mailbox1 update session (tx_db tx1))
       (mkTx (tx_db tx1) None [] [] [])
     = inr (mkTx (tx_db tx1) None md [] []))
  /\ (forall tx2,
        transaction systemFlags mailbox1 update session
          (selectMessages checkRangeQuery mailbox1 update session (tx_db tx1))
          (tx_db tx1) = inr tx2 ->
        tx_db tx2 = tx_db tx1 /\ newModseq tx2 = None
        /\ writeStream tx2 = [] /\ entries tx2 = []).
Proof.
  intros Hnd Hbound Hfind Htx Hfind1.
  assert (Hid : Mailboxes._id mailbox1 = Mailboxes._id mailbox)
    by (now apply findOne_id in Hfind1).
  pose proof (add_candidates_quiet mailbox mailbox1 db tx1 Hnd Hbound Hfind Htx Hid)
    as Hquiet.
  destruct (loop_quiet mailbox1 _ Hquiet (mkTx (tx_db tx1) None [] [] [])) as [md Hloop2].
  cbn [tx_db newModseq writeStream entries] in Hloop2.
  split; [now exists md|].
  intros tx2 Htx2.
  apply transaction_inr in Htx2 as [[_ ->]|(tx0' & nf2 & Hne2 & Hl & Hnf2 & ->)];
    [cbn; auto|].
  rewrite Hloop2 in Hl. injection Hl as <-.
  assert (nf2 = []) as ->.
  { unfold mailboxNewFlags in Hnf2. rewrite Hadd in Hnf2.
    apply collect_inr in Hnf2. cbn [app] in Hnf2. subst nf2.
    fold (vocabularyGrowth systemFlags mailbox1 update).
    apply vocabularyGrowth_twice with (mailbox := mailbox).
    apply transaction_inr in Htx as [[Hnil ->]|(tx0 & nf & _ & Hloop & Hnf & ->)].
    - exfalso. cbn [tx_db] in Hfind1, Hne2.
      rewrite Hfind in Hfind1. injection Hfind1 as <-. now apply Hne2.
    - unfold mailboxNewFlags in Hnf. rewrite Hadd in Hnf.
      apply collect_inr in Hnf. cbn [app] in Hnf. subst nf.
      apply loop_loopInv in Hloop as (Hdb & _).
      now apply (updateMailbox_findOne mailbox mailbox1 db tx0 _ Hdb Hfind). }
  unfold updateMailbox. cbn. auto.
Qed.

End Idempotence.

(** C7, as the code has it. When no message of the mailbox has a
    [modseq] above the mailbox's [modifyIndex], and [modifyIndex + 1]
    is exact on doubles: the same add applied a second time, after a
    first application that was answered with success, allocates no
    sequence number and issues no write in the loop over the
    candidates, the database (message rows, mailbox flags and
    [modifyIndex]) is left as the first application left it, no
    response is produced and the notifier is not called. *)
Theorem add_twice_idempotent (systemFlags : list string)
    (checkRangeQuery : list Z -> Z -> bool) (env1 env2 : Env) (mailboxId : ObjectId)
    (update : Update) (session : Session) (w : World) (mailbox : Mailboxes.t)
    (ok : bool) (md : list Z) (ws : list Response)
    (Hact : action update = ActAdd)
    (Hids : uniqueIds (w_db w))
    (Hmailbox : Mailboxes.findOne (db_Mailboxes (w_db w)) mailboxId = Some mailbox)
    (Hbound : modseqBehind mailbox (w_db w))
    (Hexact : exactIncrement (Mailboxes.modifyIndex mailbox))
    (Hok : fst (onStore systemFlags checkRangeQuery env1 mailboxId update session w)
           = inr (Success ok md ws)) :
  let w1 := snd (onStore systemFlags checkRangeQuery env1 mailboxId update session w) in
  let r2 := onStore systemFlags checkRangeQuery env2 mailboxId update session w1 in
  w_db (snd r2) = w_db w1
  /\ (forall mailbox1,
        Mailboxes.findOne (db_Mailboxes (w_db w1)) mailboxId = Some mailbox1 ->
        exists md2,
          forOf (storeMessage mailbox1 update session)
            (selectMessages checkRangeQuery mailbox1 update session (w_db w1))
            (mkTx (w_db w1) None [] [] [])
          = inr (mkTx (w_db w1) None md2 [] []))
  /\ (forall ok2 md2 ws2, fst r2 = inr (Success ok2 md2 ws2) -> ws2 = [])
  /\ (forall es, In (EvAddEntries es) (trace (snd r2)) ->
        In (EvAddEntries es) (trace w1)).
Proof.
  intros w1 r2. subst r2.
  apply onStore_Success_inv in Hok as (mailbox0 & tx1 & Hfind & Htx & Hdb1 & _).
  assert (mailbox0 = mailbox) as -> by congruence.
  fold w1 in Hdb1.
  pose proof (findOne_id _ _ _ Hfind) as Hid. subst mailboxId.
  assert (Hsecond : forall mailbox1,
             Mailboxes.findOne (db_Mailboxes (w_db w1)) (Mailboxes._id mailbox)
             = Some mailbox1 ->
             (exists md2,
                 forOf (storeMessage mailbox1 update session)
                   (selectMessages checkRangeQuery mailbox1 update session (w_db w1))
                   (mkTx (w_db w1) None [] [] [])
                 = inr (mkTx (w_db w1) None md2 [] []))
             /\ (forall tx2,
                    transaction systemFlags mailbox1 update session
                      (selectMessages checkRangeQuery mailbox1 update session (w_db w1))
                      (w_db w1) = inr tx2 ->
                    tx_db tx2 = w_db w1 /\ newModseq tx2 = None
                    /\ writeStream tx2 = [] /\ entries tx2 = [])).
  { intros mailbox1 Hfind1. rewrite Hdb1 in *.
    exact (add_twice_transaction systemFlags checkRangeQuery update session Hact
             mailbox mailbox1 (w_db w) tx1 Hids Hbound Hfind Htx Hfind1). }
  clearbody w1. split; [|split; [|split]].
  - destruct (onStore_db systemFlags checkRangeQuery env2 (Mailboxes._id mailbox)
                update session w1)
      as [Hdb|(mailbox1 & tx2 & _ & Hfind1 & Htx2 & ->)]; [exact Hdb|].
    now apply (Hsecond mailbox1 Hfind1).
  - intros mailbox1 Hfind1. now apply Hsecond.
  - intros ok2 md2 ws2 Hok2.
    apply onStore_Success_inv in Hok2
      as (mailbox1 & tx2 & Hfind1 & Htx2 & _ & _ & _ & -> & _).
    now apply (Hsecond mailbox1 Hfind1).
  - intros es Hes.
    apply onStore_notifies in Hes as [Hes|(mailbox1 & tx2 & Hfind1 & Htx2 & -> & Hne)];
      [exact Hes|].
    exfalso. apply Hne. now apply (Hsecond mailbox1 Hfind1).
Qed.

Lemma add_twice_idempotent_witness :
  let w1 := snd (onStore Sample.systemFlags Sample.checkRangeQuery Sample.env 1%N
                   Sample.addSeen Sample.session Sample.world) in
  let r2 := onStore Sample.systemFlags Sample.checkRangeQuery Sample.env 1%N
              Sample.addSeen Sample.session w1 in
  w_db (snd r2) = w_db w1
  /\ (forall mailbox1,
        Mailboxes.findOne (db_Mailboxes (w_db w1)) 1%N = Some mailbox1 ->
        exists md2,
          forOf (storeMessage mailbox1 Sample.addSeen Sample.session)
            (selectMessages Sample.checkRangeQuery mailbox1 Sample.addSeen
               Sample.session (w_db w1))
            (mkTx (w_db w1) None [] [] [])
          = inr (mkTx (w_db w1) None md2 [] []))
  /\ (forall ok2 md2 ws2, fst r2 = inr (Success ok2 md2 ws2) -> ws2 = [])
  /\ (forall es, In (EvAddEntries es) (trace (snd r2)) ->
        In (EvAddEntries es) (trace w1)).
Proof.
  apply (add_twice_idempotent Sample.systemFlags Sample.checkRangeQuery Sample.env
           Sample.env 1%N Sample.addSeen Sample.session Sample.world Sample.inbox true []
           [mkResponse 1 (Some 1) ["\Seen"] None; mkResponse 2 (Some 2) ["\Seen"] None]).
  - reflexivity.
  - unfold uniqueIds. cbn. repeat (constructor; [cbn; intuition discriminate|]).
    constructor.
  - reflexivity.
  - intros m Hm _. cbn in Hm.
    repeat (destruct Hm as [<-|Hm]; [cbn; lia|]). destruct Hm.
  - unfold exactIncrement. cbn. lia.
  - reflexivity.
Defined.

(** C7, as stated, fails when a message is ahead of its mailbox, the
    state the condition [modseq < newModseq] of the UPDATE is written
    for. With the message at [modseq] 10 and the mailbox at
    [modifyIndex] 7, [add \Seen] finds the flag missing, answers with a
    FETCH response and moves [modifyIndex] to 8, but its UPDATE matches
    no row; the same add applied again finds the flag missing again,
    answers with the same response and moves [modifyIndex] to 9. *)
Lemma add_twice_counterexample :
  let r1 := onStore Sample.systemFlags Sample.checkRangeQuery Sample.env 1%N
              Scenario.addSeenOne Sample.session
              (mkWorld Scenario.dbAhead false []) in
  let r2 := onStore Sample.systemFlags Sample.checkRangeQuery Sample.env 1%N
              Scenario.addSeenOne Sample.session (snd r1) in
  fst r1 = inr (Success true [] [mkResponse 1 (Some 1) ["\Seen"] None])
  /\ db_Messages (w_db (snd r1)) = db_Messages Scenario.dbAhead
  /\ map Mailboxes.modifyIndex (db_Mailboxes (w_db (snd r1))) = [8]
  /\ fst r2 = inr (Success true [] [mkResponse 1 (Some 1) ["\Seen"] None])
  /\ map Mailboxes.modifyIndex (db_Mailboxes (w_db (snd r2))) = [9]
  /\ List.length
       (filter (fun ev => match ev with EvAddEntries _ => true | _ => false end)
          (trace (snd r2))) = 2%nat.
Proof.
  vm_compute. repeat split; reflexivity.
Qed.


(* ================================================================== *)
(** * Further properties                                               *)
(* ================================================================== *)

(* ------------------------------------------------------------------ *)
(** ** Normal form of a flag                                           *)
(* ------------------------------------------------------------------ *)

Lemma isWhiteSpace_lowerChar (c : ascii) :
  JsString.isWhiteSpace (JsString.lowerChar c) = JsString.isWhiteSpace c.
Proof.
  destruct c as [[] [] [] [] [] [] [] []]; reflexivity.
Qed.

Lemma lowerChar_lowerChar (c : ascii) :
  JsString.lowerChar (JsString.lowerChar c) = JsString.lowerChar c.
Proof.
  destruct c as [[] [] [] [] [] [] [] []]; reflexivity.
Qed.

Lemma toLowerCase_toLowerCase (s : string) :
  JsString.toLowerCase (JsString.toLowerCase s) = JsString.toLowerCase s.
Proof.
  induction s as [|c r IH]; cbn [JsString.toLowerCase]; [reflexivity|].
  now rewrite lowerChar_lowerChar, IH.
Qed.

Lemma trimStart_toLowerCase (s : string) :
  JsString.trimStart (JsString.toLowerCase s)
  = JsString.toLowerCase (JsString.trimStart s).
Proof.
  induction s as [|c r IH]; cbn [JsString.toLowerCase JsString.trimStart];
    [reflexivity|].
  rewrite isWhiteSpace_lowerChar.
  now destruct (JsString.isWhiteSpace c).
Qed.

Lemma trimEnd_toLowerCase (s : string) :
  JsString.trimEnd (JsString.toLowerCase s)
  = JsString.toLowerCase (JsString.trimEnd s).
Proof.
  induction s as [|c r IH]; cbn [JsString.toLowerCase JsString.trimEnd];
    [reflexivity|].
  rewrite IH, isWhiteSpace_lowerChar.
  destruct (JsString.trimEnd r); cbn [JsString.toLowerCase]; [|reflexivity].
  now destruct (JsString.isWhiteSpace c).
Qed.

Lemma trimStart_startsClean (s : string) : startsClean (JsString.trimStart s).
Proof.
  induction s as [|c r IH]; cbn [JsString.trimStart]; [exact I|].
  destruct (JsString.isWhiteSpace c) eqn:E; [exact IH|exact E].
Qed.

Lemma trimStart_clean (s : string) : startsClean s -> JsString.trimStart s = s.
Proof.
  destruct s as [|c r]; cbn [startsClean JsString.trimStart]; [reflexivity|].
  now intros ->.
Qed.

Lemma trimEnd_startsClean (s : string) :
  startsClean s -> startsClean (JsString.trimEnd s).
Proof.
  destruct s as [|c r]; cbn [startsClean JsString.trimEnd]; [trivial|].
  intros E. destruct (JsString.trimEnd r); [rewrite E|]; exact E.
Qed.

Lemma trimEnd_cons (c : ascii) (r : string) :
  JsString.trimEnd (String c r)
  = match JsString.trimEnd r with
    | EmptyString =>
        if JsString.isWhiteSpace c then EmptyString else String c EmptyString
    | r' => String c r'
    end.
Proof. reflexivity. Qed.

Lemma trimEnd_trimEnd (s : string) :
  JsString.trimEnd (JsString.trimEnd s) = JsString.trimEnd s.
Proof.
  induction s as [|c r IH]; [reflexivity|].
  rewrite (trimEnd_cons c r).
  destruct (JsString.trimEnd r) as [|d t] eqn:E.
  - destruct (JsString.isWhiteSpace c) eqn:Ec; [reflexivity|].
    rewrite trimEnd_cons. cbn [JsString.trimEnd]. now rewrite Ec.
  - rewrite trimEnd_cons, IH. reflexivity.
Qed.

Lemma trim_trim (s : string) : JsString.trim (JsString.trim s) = JsString.trim s.
Proof.
  unfold JsString.trim.
  rewrite (trimStart_clean (JsString.trimEnd (JsString.trimStart s))).
  - apply trimEnd_trimEnd.
  - apply trimEnd_startsClean, trimStart_startsClean.
Qed.

Lemma lowerChar_ascii (c : ascii) :
  (nat_of_ascii c <? 128)%nat = true ->
  (nat_of_ascii (JsString.lowerChar c) <? 128)%nat = true.
Proof.
  destruct c as [[] [] [] [] [] [] [] []]; vm_compute; auto.
Qed.

Lemma isASCII_toLowerCase (s : string) :
  JsString.isASCII s = true -> JsString.isASCII (JsString.toLowerCase s) = true.
Proof.
  induction s as [|c r IH]; cbn [JsString.isASCII JsString.toLowerCase]; [trivial|].
  intros H. apply andb_true_iff in H as [Hc Hr].
  apply andb_true_iff. split; [now apply lowerChar_ascii|now apply IH].
Qed.

Lemma isASCII_trimStart (s : string) :
  JsString.isASCII s = true -> JsString.isASCII (JsString.trimStart s) = true.
Proof.
  induction s as [|c r IH]; cbn [JsString.trimStart]; [trivial|].
  intros H. destruct (JsString.isWhiteSpace c); [|exact H].
  cbn [JsString.isASCII] in H. apply andb_true_iff in H as [_ Hr]. now apply IH.
Qed.

Lemma isASCII_trimEnd (s : string) :
  JsString.isASCII s = true -> JsString.isASCII (JsString.trimEnd s) = true.
Proof.
  induction s as [|c r IH]; [trivial|].
  intros H. cbn [JsString.isASCII] in H. apply andb_true_iff in H as [Hc Hr].
  specialize (IH Hr). rewrite trimEnd_cons.
  destruct (JsString.trimEnd r) as [|d t].
  - destruct (JsString.isWhiteSpace c); [reflexivity|].
    cbn [JsString.isASCII]. now rewrite Hc.
  - change (JsString.isASCII (String c (String d t)))
      with ((nat_of_ascii c <? 128)%nat && JsString.isASCII (String d t)).
    now rewrite Hc, IH.
Qed.

(** X1. On ASCII flags, where the model of [trim] and [toLowerCase] is
    JavaScript's: [getFlag] yields an ASCII string, and one that it
    leaves alone, so normalising a flag twice is normalising it once
    and names compared through it fall into classes with one
    representative each. *)
Theorem getFlag_idempotent (f : string) (Hascii : JsString.isASCII f = true) :
  JsString.isASCII (getFlag f) = true /\ getFlag (getFlag f) = getFlag f.
Proof.
  split.
  - unfold getFlag, JsString.trim.
    now apply isASCII_toLowerCase, isASCII_trimEnd, isASCII_trimStart.
  - unfold getFlag, JsString.trim.
    rewrite trimStart_toLowerCase, trimEnd_toLowerCase.
    fold (JsString.trim (JsString.trimEnd (JsString.trimStart f))).
    fold (JsString.trim f). rewrite trim_trim.
    apply toLowerCase_toLowerCase.
Qed.

Lemma getFlag_idempotent_witness :
  JsString.isASCII (getFlag "  \Seen ") = true
  /\ getFlag (getFlag "  \Seen ") = getFlag "  \Seen ".
Proof.
  apply (getFlag_idempotent "  \Seen "). reflexivity.
Defined.

(* ------------------------------------------------------------------ *)
(** ** What the three actions compute                                  *)
(* ------------------------------------------------------------------ *)

Lemma includes_false_iff (l : list string) (x : string) :
  includes l x = false <-> ~ In x l.
Proof.
  rewrite <- includes_In. destruct (includes l x); split; congruence.
Qed.

(** X2. The add action: the new list holds every flag the message had
    and, of the input, the flags not yet on the message up to case and
    surrounding space; it holds no flag twice; and [updated] is false
    exactly when every input flag was already on the message in that
    sense. *)
Theorem caseAdd_spec (val fl : list string) :
  (forall g, In g (message_flags (caseAdd val fl))
             <-> In g fl \/ (In g val /\ ~ In (getFlag g) (map getFlag fl)))
  /\ NoDup (message_flags (caseAdd val fl))
  /\ (updated (caseAdd val fl) = false
      <-> forall f, In f val -> In (getFlag f) (map getFlag fl)).
Proof.
  unfold caseAdd. cbn [message_flags updated]. split; [|split].
  - intros g. rewrite uniq_In, in_app_iff, filter_In, negb_true_iff,
      includes_false_iff. unfold existingFlags. rewrite uniq_In. tauto.
  - apply NoDup_uniq.
  - rewrite nonEmpty_filter_includes, existsb_negb_includes. unfold existingFlags.
    split.
    + intros H f Hf. apply uniq_In, H. now apply in_map.
    + intros H x Hx. apply in_map_iff in Hx as (f & <- & Hf). apply uniq_In. auto.
Qed.

(** X3. The remove action: the new list holds exactly the flags of the
    message that match no input flag up to case and surrounding space,
    none twice; [updated] is true exactly when some flag of the message
    matched; and removing the same flags again is not an update. *)
Theorem caseRemove_spec (su : option string) (val fl : list string) :
  (forall g, In g (message_flags (caseRemove su val fl))
             <-> In g fl /\ ~ In (getFlag g) (map getFlag val))
  /\ NoDup (message_flags (caseRemove su val fl))
  /\ (updated (caseRemove su val fl) = true
      <-> exists g, In g fl /\ In (getFlag g) (map getFlag val))
  /\ updated (caseRemove su val (message_flags (caseRemove su val fl))) = false.
Proof.
  assert (Hmem : forall g, In g (message_flags (caseRemove su val fl))
                           <-> In g fl /\ ~ In (getFlag g) (map getFlag val)).
  { intros g. unfold caseRemove. cbn [message_flags].
    rewrite uniq_In, filter_In, negb_true_iff, includes_false_iff, uniq_In. tauto. }
  assert (Hupd : forall l, updated (caseRemove su val l) = true
                           <-> exists g, In g l /\ In (getFlag g) (map getFlag val)).
  { intros l. unfold caseRemove. cbn [updated].
    rewrite nonEmpty_filter_includes, existsb_exists.
    split; intros (g & Hg & H); exists g; (split; [exact Hg|]); cbv beta in *.
    - apply includes_In in H. now rewrite uniq_In in H.
    - apply includes_In. now rewrite uniq_In. }
  split; [exact Hmem|]. split; [apply NoDup_uniq|]. split; [apply Hupd|].
  apply not_true_is_false. intros H. apply Hupd in H as (g & Hg & Hin).
  apply Hmem in Hg. tauto.
Qed.

(** X4. The set action on an input without two flags of the same normal
    form: the new list is the input without repetitions, and [updated]
    is false exactly when the input and the message hold the same flags
    up to case and surrounding space. *)
Theorem caseSet_spec (val fl : list string)
    (Hdistinct : NoDup (map getFlag val)) :
  message_flags (caseSet val fl) = uniq val
  /\ NoDup (message_flags (caseSet val fl))
  /\ (updated (caseSet val fl) = false
      <-> forall x, In x (map getFlag val) <-> In x (map getFlag fl)).
Proof.
  split; [reflexivity|]. split; [apply NoDup_uniq|].
  now apply caseSet_updated_iff.
Qed.

Lemma caseSet_spec_witness :
  message_flags (caseSet ["\Seen"; "work"] ["WORK"; "\seen"]) = uniq ["\Seen"; "work"]
  /\ NoDup (message_flags (caseSet ["\Seen"; "work"] ["WORK"; "\seen"]))
  /\ (updated (caseSet ["\Seen"; "work"] ["WORK"; "\seen"]) = false
      <-> forall x, In x (map getFlag ["\Seen"; "work"])
                    <-> In x (map getFlag ["WORK"; "\seen"])).
Proof.
  apply (caseSet_spec ["\Seen"; "work"] ["WORK"; "\seen"]).
  vm_compute. repeat (constructor; [cbn; intuition discriminate|]). constructor.
Defined.

(* ------------------------------------------------------------------ *)
(** ** What one iteration of the loop does                             *)
(* ------------------------------------------------------------------ *)

Section Iteration.
Variable mailbox : Mailboxes.t.
Variable update : Update.
Variable session : Session.

(** The four ways through the body of the loop. *)
Lemma storeMessage_cases (tx tx' : Tx) (m : Messages.t) :
  storeMessage mailbox update session tx m = inr tx' ->
  (skipped update session m = true /\ tx' = tx)
  \/ (skipped update session m = false /\ guarded update m = true
      /\ tx' = mkTx (tx_db tx) (newModseq tx) (modified tx ++ [Messages.uid m])
                    (writeStream tx) (entries tx))
  \/ (skipped update session m = false /\ guarded update m = false
      /\ exists sw,
          switchAction (Mailboxes.specialUse mailbox) (value update)
            (Messages.flags m) (action update) = inr sw
          /\ ((updated sw = false /\ tx' = tx)
              \/ (updated sw = true
                  /\ tx' = mkTx
                       (mkDb (db_Mailboxes (tx_db tx))
                          (updateMessages (Messages._id m) (Mailboxes._id mailbox)
                             (Messages.uid m) (getModseq mailbox (newModseq tx))
                             (Messages.setModseq (getModseq mailbox (newModseq tx))
                                (dollarSet sw))
                             (db_Messages (tx_db tx))))
                       (Some (getModseq mailbox (newModseq tx)))
                       (modified tx)
                       (if negb (silent update) || condstoreEnabled session then
                          writeStream tx ++
                            [mkResponse (Messages.uid m)
                               (if isUid update then Some (Messages.uid m) else None)
                               (message_flags sw)
                               (if condstoreEnabled session
                                then Some (getModseq mailbox (newModseq tx))
                                else None)]
                        else writeStream tx)
                       (entries tx ++
                          [mkEntry (session_id session) (Messages.uid m)
                             (message_flags sw) (Messages._id m)
                             (getModseq mailbox (newModseq tx))])))).
Proof.
  unfold storeMessage. fold (skipped update session m). fold (guarded update m).
  destruct (skipped update session m).
  { intros H. apply inr_eq in H. left. auto. }
  destruct (guarded update m).
  { intros H. apply inr_eq in H. right; left. auto. }
  destruct (switchAction _ _ _ _) as [e|sw]; [discriminate|].
  intros H. right; right. split; [reflexivity|]. split; [reflexivity|].
  exists sw. split; [reflexivity|].
  destruct (updated sw); cbn [negb] in H; apply inr_eq in H; auto.
Qed.

(** The conflict list grows by the uid of a guarded row that was not
    skipped, and by nothing else. *)
Lemma storeMessage_modified (tx tx' : Tx) (m : Messages.t) :
  storeMessage mailbox update session tx m = inr tx' ->
  modified tx'
  = modified tx
    ++ (if negb (skipped update session m) && guarded update m
        then [Messages.uid m] else []).
Proof.
  intros H.
  apply storeMessage_cases in H
    as [(-> & ->)|[(-> & -> & ->)|(-> & -> & sw & _ & [(_ & ->)|(_ & ->)])]];
    cbn [negb andb modified]; now rewrite ?app_nil_r.
Qed.

Lemma loop_modified (msgs : list Messages.t) (tx tx' : Tx) :
  forOf (storeMessage mailbox update session) msgs tx = inr tx' ->
  modified tx'
  = modified tx
    ++ map Messages.uid
         (filter (fun m => negb (skipped update session m) && guarded update m) msgs).
Proof.
  revert tx. induction msgs as [|m r IH]; intros tx; cbn [forOf filter map].
  - intros H. apply inr_eq in H. subst. now rewrite app_nil_r.
  - destruct (storeMessage mailbox update session tx m) as [e|t] eqn:Hm; [discriminate|].
    intros H. rewrite (IH t H), (storeMessage_modified tx t m Hm).
    destruct (negb (skipped update session m) && guarded update m);
      cbn [map app]; now rewrite <- app_assoc.
Qed.
End Iteration.

(* ------------------------------------------------------------------ *)
(** ** What a command leaves alone                                     *)
(* ------------------------------------------------------------------ *)

Lemma updateMessages_keys (id mb : ObjectId) (u lt : Z) (s : Messages.modifier)
    (tbl : list Messages.t) :
  map rowKey (updateMessages id mb u lt s tbl) = map rowKey tbl.
Proof.
  unfold updateMessages. rewrite map_map. apply map_ext.
  intros r. now destruct (_ && _).
Qed.

Lemma updateMailboxes_keys (id : ObjectId) (s : Mailboxes.modifier)
    (tbl : list Mailboxes.t) :
  map (fun mb => (Mailboxes._id mb, Mailboxes.specialUse mb)) (updateMailboxes id s tbl)
  = map (fun mb => (Mailboxes._id mb, Mailboxes.specialUse mb)) tbl.
Proof.
  unfold updateMailboxes. rewrite map_map. apply map_ext.
  intros r. now destruct (N.eqb _ _).
Qed.

Lemma filter_map_fixed {A} (p : A -> bool) (f : A -> A) (l : list A) :
  (forall x, p (f x) = p x) -> (forall x, p x = true -> f x = x) ->
  filter p (map f l) = filter p l.
Proof.
  intros Hp Hf. induction l as [|x r IH]; cbn [map filter]; [reflexivity|].
  rewrite Hp, IH. destruct (p x) eqn:E; [now rewrite Hf|reflexivity].
Qed.

Section Frame.
Variable systemFlags : list string.
Variable checkRangeQuery : list Z -> Z -> bool.
Variable mailbox : Mailboxes.t.
Variable update : Update.
Variable session : Session.

Lemma loop_keys (msgs : list Messages.t) (tx tx' : Tx) :
  forOf (storeMessage mailbox update session) msgs tx = inr tx' ->
  map rowKey (db_Messages (tx_db tx')) = map rowKey (db_Messages (tx_db tx))
  /\ db_Mailboxes (tx_db tx') = db_Mailboxes (tx_db tx).
Proof.
  apply (forOf_invariant
           (fun t => map rowKey (db_Messages (tx_db t)) = map rowKey (db_Messages (tx_db tx))
                     /\ db_Mailboxes (tx_db t) = db_Mailboxes (tx_db tx))); [auto|].
  intros t x t' _ [Hk Hm] Hb. apply storeMessage_stepOf in Hb.
  inversion Hb; subst; cbn [tx_db db_Messages db_Mailboxes]; auto.
  now rewrite updateMessages_keys.
Qed.

Lemma transaction_keys (msgs : list Messages.t) (db : Db) (tx : Tx) :
  transaction systemFlags mailbox update session msgs db = inr tx ->
  map rowKey (db_Messages (tx_db tx)) = map rowKey (db_Messages db)
  /\ map (fun mb => (Mailboxes._id mb, Mailboxes.specialUse mb)) (db_Mailboxes (tx_db tx))
     = map (fun mb => (Mailboxes._id mb, Mailboxes.specialUse mb)) (db_Mailboxes db).
Proof.
  intros Htx.
  apply transaction_inr in Htx as [[_ ->]|(tx0 & nf & _ & Hloop & _ & ->)]; [auto|].
  apply loop_keys in Hloop as [Hk Hm]. cbn [tx_db db_Messages db_Mailboxes] in Hk, Hm.
  rewrite updateMailbox_Messages. split; [exact Hk|].
  unfold updateMailbox. destruct (_ || _); cbn [tx_db db_Mailboxes];
    now rewrite ?updateMailboxes_keys, Hm.
Qed.

(** Rows the command is not addressed to are not written. *)
Lemma loop_frame (msgs : list Messages.t) (tx tx' : Tx) :
  (forall m, In m msgs ->
     Messages.mailbox m = Mailboxes._id mailbox
     /\ (queryAll update session
         || checkRangeQuery (messages update) (Messages.uid m)) = true) ->
  forOf (storeMessage mailbox update session) msgs tx = inr tx' ->
  filter (fun r => negb (addressed checkRangeQuery (Mailboxes._id mailbox) update session r))
    (db_Messages (tx_db tx'))
  = filter (fun r => negb (addressed checkRangeQuery (Mailboxes._id mailbox) update session r))
      (db_Messages (tx_db tx)).
Proof.
  intros Hmsgs.
  apply (forOf_invariant
           (fun t =>
              filter (fun r => negb (addressed checkRangeQuery (Mailboxes._id mailbox)
                                       update session r)) (db_Messages (tx_db t))
              = filter (fun r => negb (addressed checkRangeQuery (Mailboxes._id mailbox)
                                         update session r)) (db_Messages (tx_db tx))));
    [reflexivity|].
  intros t x t' Hx Ht Hb. destruct (Hmsgs x Hx) as [Hmb Hq].
  apply storeMessage_cases in Hb
    as [(_ & ->)|[(_ & _ & ->)|(Hs & _ & sw & _ & [(_ & ->)|(_ & ->)])]]; auto.
  cbn [tx_db db_Messages]. rewrite <- Ht. unfold updateMessages.
  apply filter_map_fixed.
  - intros r. now destruct (_ && _).
  - intros r Hr.
    destruct (N.eqb_spec (Messages._id r) (Messages._id x)); cbn [andb]; [|reflexivity].
    destruct (N.eqb_spec (Messages.mailbox r) (Mailboxes._id mailbox)) as [Hrm|];
      cbn [andb]; [|reflexivity].
    destruct (Z.eqb_spec (Messages.uid r) (Messages.uid x)) as [Hru|];
      cbn [andb]; [|reflexivity].
    exfalso. apply negb_true_iff in Hr. revert Hr.
    unfold addressed, skipped in *. rewrite Hru, Hrm, N.eqb_refl, Hq, Hs. discriminate.
Qed.

(** With a guard other than 0, a row that changed after it stays as it is. *)
Lemma loop_guard (us : Z) (db : Db) (msgs : list Messages.t) (tx : Tx) :
  unchangedSince update = Some us -> us <> 0 ->
  uniqueIds db ->
  (forall m, In m msgs -> In m (db_Messages db)) ->
  forOf (storeMessage mailbox update session) msgs (mkTx db None [] [] []) = inr tx ->
  forall r, In r (db_Messages db) -> us < Messages.modseq r ->
            In r (db_Messages (tx_db tx)).
Proof.
  intros Hus Hnz Hnd Hmsgs.
  apply (forOf_invariant
           (fun t => forall r, In r (db_Messages db) -> us < Messages.modseq r ->
                               In r (db_Messages (tx_db t)))); [auto|].
  intros t x t' Hx Ht Hb r Hr Hlt. specialize (Ht r Hr Hlt).
  apply storeMessage_cases in Hb
    as [(_ & ->)|[(_ & _ & ->)|(_ & Hg & sw & _ & [(_ & ->)|(_ & ->)])]]; auto.
  cbn [tx_db db_Messages]. unfold updateMessages.
  apply in_map_iff. exists r. split; [|exact Ht].
  destruct (N.eqb_spec (Messages._id r) (Messages._id x)) as [Hid|]; cbn [andb];
    [|reflexivity].
  exfalso. assert (r = x) as -> by (eapply NoDup_map_inj; eauto).
  unfold guarded in Hg. rewrite Hus in Hg. cbn [truthyOpt] in Hg.
  unfold truthy in Hg. apply Z.eqb_neq in Hnz. rewrite Hnz in Hg. cbn in Hg.
  apply Z.ltb_ge in Hg. lia.
Qed.
End Frame.

(** X5. A STORE neither inserts nor deletes rows and never changes what
    identifies them: after [onStore], on every path, the message rows
    have the same [_id], [mailbox] and [uid], in the same order, and the
    mailbox rows the same [_id] and [specialUse]. *)
Theorem onStore_keeps_rows (systemFlags : list string)
    (checkRangeQuery : list Z -> Z -> bool) (env : Env) (mailboxId : ObjectId)
    (update : Update) (session : Session) (w : World) :
  let w' := snd (onStore systemFlags checkRangeQuery env mailboxId update session w) in
  map rowKey (db_Messages (w_db w')) = map rowKey (db_Messages (w_db w))
  /\ map (fun mb => (Mailboxes._id mb, Mailboxes.specialUse mb)) (db_Mailboxes (w_db w'))
     = map (fun mb => (Mailboxes._id mb, Mailboxes.specialUse mb)) (db_Mailboxes (w_db w)).
Proof.
  cbv zeta.
  destruct (onStore_db systemFlags checkRangeQuery env mailboxId update session w)
    as [->|(mailbox & tx & _ & _ & Htx & ->)]; [auto|].
  now apply transaction_keys in Htx.
Qed.

(** X6. Only rows the command is addressed to can change: the rows of
    other mailboxes, the rows the uid query does not match and, under
    [queryAll], the rows whose uid the session does not list are after
    [onStore] exactly what they were, on every path. *)
Theorem onStore_frame (systemFlags : list string)
    (checkRangeQuery : list Z -> Z -> bool) (env : Env) (mailboxId : ObjectId)
    (update : Update) (session : Session) (w : World) :
  let w' := snd (onStore systemFlags checkRangeQuery env mailboxId update session w) in
  filter (fun r => negb (addressed checkRangeQuery mailboxId update session r))
    (db_Messages (w_db w'))
  = filter (fun r => negb (addressed checkRangeQuery mailboxId update session r))
      (db_Messages (w_db w)).
Proof.
  cbv zeta.
  destruct (onStore_db systemFlags checkRangeQuery env mailboxId update session w)
    as [->|(mailbox & tx & _ & Hfind & Htx & ->)]; [reflexivity|].
  apply findOne_id in Hfind. subst mailboxId.
  apply transaction_inr in Htx as [[_ ->]|(tx0 & nf & _ & Hloop & _ & ->)];
    [reflexivity|].
  rewrite updateMailbox_Messages.
  apply (loop_frame checkRangeQuery mailbox update session) in Hloop; [exact Hloop|].
  intros m Hm. apply selectMessages_In_iff in Hm. tauto.
Qed.

(** X7. With an [unchangedSince] guard other than 0 and unique row
    identifiers, every row whose [modseq] exceeds the guard is after
    [onStore] exactly what it was, on every path. *)
Theorem onStore_guard_protects (systemFlags : list string)
    (checkRangeQuery : list Z -> Z -> bool) (env : Env) (mailboxId : ObjectId)
    (update : Update) (session : Session) (w : World) (us : Z)
    (Hus : unchangedSince update = Some us) (Hnz : us <> 0)
    (Hids : uniqueIds (w_db w)) :
  forall r, In r (db_Messages (w_db w)) -> us < Messages.modseq r ->
    In r (db_Messages
            (w_db (snd (onStore systemFlags checkRangeQuery env mailboxId update
                          session w)))).
Proof.
  intros r Hr Hlt.
  destruct (onStore_db systemFlags checkRangeQuery env mailboxId update session w)
    as [->|(mailbox & tx & _ & _ & Htx & ->)]; [exact Hr|].
  apply transaction_inr in Htx as [[_ ->]|(tx0 & nf & _ & Hloop & _ & ->)];
    [exact Hr|].
  rewrite updateMailbox_Messages.
  refine (loop_guard mailbox update session us (w_db w) _ tx0 Hus Hnz Hids _ Hloop
            r Hr Hlt).
  intros m Hm. now apply selectMessages_In in Hm.
Qed.

(* ------------------------------------------------------------------ *)
(** ** What the callback receives                                      *)
(* ------------------------------------------------------------------ *)

(** X8. On success the list of conflicts handed to the callback is, in
    the order of the query, the uids of the candidate rows that were
    not skipped under [queryAll] and whose [modseq] exceeds a guard
    other than 0; without a guard, or with the guard 0, it is empty. *)
Theorem onStore_modified (systemFlags : list string)
    (checkRangeQuery : list Z -> Z -> bool) (env : Env) (mailboxId : ObjectId)
    (update : Update) (session : Session) (w : World) (mailbox : Mailboxes.t)
    (ok : bool) (md : list Z) (ws : list Response)
    (Hfind : Mailboxes.findOne (db_Mailboxes (w_db w)) mailboxId = Some mailbox)
    (Hok : fst (onStore systemFlags checkRangeQuery env mailboxId update session w)
           = inr (Success ok md ws)) :
  md = map Messages.uid
         (filter (fun m => negb (skipped update session m) && guarded update m)
            (selectMessages checkRangeQuery mailbox update session (w_db w)))
  /\ (truthyOpt (unchangedSince update) = false -> md = []).
Proof.
  apply onStore_Success_inv in Hok
    as (mailbox' & tx & Hfind' & Htx & _ & _ & -> & _).
  assert (mailbox' = mailbox) as -> by congruence.
  assert (Hmd : modified tx
                = map Messages.uid
                    (filter (fun m => negb (skipped update session m) && guarded update m)
                       (selectMessages checkRangeQuery mailbox update session (w_db w)))).
  { apply transaction_inr in Htx as [[-> ->]|(tx0 & nf & _ & Hloop & _ & ->)];
      [reflexivity|].
    destruct (updateMailbox_entries mailbox tx0 nf) as (_ & _ & -> & _).
    now apply loop_modified in Hloop. }
  split; [exact Hmd|].
  intros Hno. rewrite Hmd, filter_nil; [reflexivity|].
  intros m _. unfold guarded. rewrite Hno. cbn [andb]. apply andb_false_r.
Qed.

Section Responses.
Variable mailbox : Mailboxes.t.
Variable update : Update.
Variable session : Session.

Lemma loop_responses (db : Db) (msgs : list Messages.t) (tx : Tx) :
  forOf (storeMessage mailbox update session) msgs (mkTx db None [] [] []) = inr tx ->
  responsesInv mailbox update session tx.
Proof.
  intros Hloop.
  cut (loopInv mailbox db tx /\ responsesInv mailbox update session tx); [tauto|].
  revert Hloop.
  apply (forOf_invariant
           (fun t => loopInv mailbox db t /\ responsesInv mailbox update session t)).
  - split; [apply loopInv_init|]. unfold responsesInv. cbn. repeat split; auto; tauto.
  - intros t x t' _ (Hinv & Hresp) Hb.
    split; [eapply loopInv_step; eauto using storeMessage_stepOf|].
    pose proof (loopInv_getModseq _ _ _ Hinv) as Hnm.
    apply storeMessage_cases in Hb
      as [(_ & ->)|[(_ & _ & ->)|(_ & _ & sw & _ & [(_ & ->)|(_ & ->)])]];
      try exact Hresp.
    destruct Hresp as (Hq & Hl & Hs). rewrite Hnm. unfold responsesInv. cbn [writeStream entries].
    destruct (negb (silent update) || condstoreEnabled session) eqn:Hmode.
    + split; [discriminate|]. split.
      * intros _. rewrite !map_app, Hl by reflexivity. reflexivity.
      * intros r Hr. apply in_app_or in Hr as [Hr|[<-|[]]]; [now apply Hs|].
        cbn. split; reflexivity.
    + split; [intros _; now apply Hq|]. split; [discriminate|exact Hs].
Qed.
End Responses.

(** X9. The response stream of a successful command, for a counter on
    which [modifyIndex + 1] is exact on doubles. In silent mode
    without CONDSTORE it is empty. Every response carries the uid
    attribute exactly when the command is a UID command and the new
    sequence number, [modifyIndex + 1], exactly when CONDSTORE is
    enabled. Outside silent mode there is one response per entry given
    to the notifier, with the same uid and flags, in the same order. *)
Theorem onStore_responses (systemFlags : list string)
    (checkRangeQuery : list Z -> Z -> bool) (env : Env) (mailboxId : ObjectId)
    (update : Update) (session : Session) (w : World) (mailbox : Mailboxes.t)
    (ok : bool) (md : list Z) (ws : list Response)
    (Hfind : Mailboxes.findOne (db_Mailboxes (w_db w)) mailboxId = Some mailbox)
    (Hexact : exactIncrement (Mailboxes.modifyIndex mailbox))
    (Hok : fst (onStore systemFlags checkRangeQuery env mailboxId update session w)
           = inr (Success ok md ws)) :
  let w' := snd (onStore systemFlags checkRangeQuery env mailboxId update session w) in
  (silent update = true -> condstoreEnabled session = false -> ws = [])
  /\ (forall r, In r ws ->
        resp_uid r = (if isUid update then Some (resp_seq r) else None)
        /\ resp_modseq r = (if condstoreEnabled session
                            then Some (Mailboxes.modifyIndex mailbox + 1) else None))
  /\ (negb (silent update) || condstoreEnabled session = true ->
      forall es, In (EvAddEntries es) (trace w') ->
        In (EvAddEntries es) (trace w)
        \/ map (fun e => (entry_uid e, entry_flags e)) es
           = map (fun r => (resp_seq r, resp_flags r)) ws).
Proof.
  intros w'. subst w'.
  apply onStore_Success_inv in Hok
    as (mailbox' & tx & Hfind' & Htx & _ & _ & _ & -> & Htrace).
  assert (mailbox' = mailbox) as -> by congruence.
  assert (H : responsesInv mailbox update session tx).
  { apply transaction_inr in Htx as [[_ ->]|(tx0 & nf & _ & Hloop & _ & ->)].
    - unfold responsesInv. cbn. repeat split; auto; tauto.
    - apply (loop_responses mailbox update session (w_db w)) in Hloop.
      unfold responsesInv in *.
      now destruct (updateMailbox_entries mailbox tx0 nf) as (-> & -> & _ & _). }
  destruct H as (Hq & Hl & Hs). split; [|split].
  - intros Hsilent Hcond. apply Hq. now rewrite Hsilent, Hcond.
  - exact Hs.
  - intros Hmode es Hes. destruct (Htrace es Hes) as [Hold|[-> _]]; [now left|right].
    symmetry. now apply Hl.
Qed.

(* ------------------------------------------------------------------ *)
(** ** Invariants of the stored rows                                   *)
(* ------------------------------------------------------------------ *)

(** A property of rows that a row's own write keeps is kept by the
    whole loop, row identifiers being unique. *)
Lemma loop_rows_preserved (Q : Messages.t -> Prop) (mailbox : Mailboxes.t)
    (update : Update) (session : Session) (db : Db) (msgs : list Messages.t) (tx : Tx) :
  (forall m sw n, Q m ->
     switchAction (Mailboxes.specialUse mailbox) (value update) (Messages.flags m)
       (action update) = inr sw ->
     updated sw = true ->
     Q (Messages.applySet (Messages.setModseq n (dollarSet sw)) m)) ->
  uniqueIds db ->
  (forall r, In r (db_Messages db) -> Q r) ->
  (forall m, In m msgs -> In m (db_Messages db)) ->
  forOf (storeMessage mailbox update session) msgs (mkTx db None [] [] []) = inr tx ->
  forall r, In r (db_Messages (tx_db tx)) -> Q r.
Proof.
  intros HQ Hnd Hall Hsub Hloop.
  cut (loopInv mailbox db tx /\ forall r, In r (db_Messages (tx_db tx)) -> Q r);
    [tauto|].
  revert Hloop.
  apply (forOf_invariant
           (fun t => loopInv mailbox db t /\ forall r, In r (db_Messages (tx_db t)) -> Q r)).
  - split; [apply loopInv_init|exact Hall].
  - intros t x t' Hx (Hinv & Hok) Hb.
    split; [eapply loopInv_step; eauto using storeMessage_stepOf|].
    pose proof (loopInv_getModseq _ _ _ Hinv) as Hnm.
    destruct Hinv as (_ & _ & H3 & _).
    apply storeMessage_cases in Hb
      as [(_ & ->)|[(_ & _ & ->)|(_ & _ & sw & Hsw & [(_ & ->)|(Hup & ->)])]];
      try exact Hok.
    cbn [tx_db db_Messages]. intros r Hr.
    apply updateMessages_In in Hr as [Hr|(r0 & Hr0 & Hid & _ & _ & Hlt & ->)];
      [now apply Hok|].
    assert (r0 = x) as ->.
    { destruct (H3 r0 Hr0) as [Hin|Heq]; [|lia].
      eapply NoDup_map_inj; eauto. }
    apply HQ; auto.
Qed.

(** One row: each action keeps a message that carries \Deleted out of
    the searchable ones. *)
Lemma switch_deletedHidden (su : option string) (val : list string) (a : Action)
    (m : Messages.t) (sw : Switched) (n : Z) :
  deletedHidden m ->
  switchAction su val (Messages.flags m) a = inr sw ->
  updated sw = true ->
  deletedHidden (Messages.applySet (Messages.setModseq n (dollarSet sw)) m).
Proof.
  unfold deletedHidden. intros Hm Hsw Hup.
  destruct a; cbn [switchAction] in Hsw; try discriminate; apply inr_eq in Hsw;
    subst sw; unfold caseSet, caseAdd, caseRemove in *;
    cbn [updated dollarSet message_flags] in *; rewrite Hup.
  - cbn [Messages.applySet Messages.setModseq Messages.orElse Messages.set_flags
         Messages.set_searchable Messages.flags Messages.searchable].
    now intros ->.
  - set (nf := filter _ val) in *.
    destruct (includes nf "\Deleted") eqn:E3;
      destruct (includes nf "\Seen"), (includes nf "\Flagged"), (includes nf "\Draft");
      cbn [orb Messages.applySet Messages.setModseq Messages.orElse Messages.set_flags
           Messages.set_searchable Messages.flags Messages.searchable];
      try reflexivity;
      rewrite includes_uniq, includes_app, E3, orb_false_r; exact Hm.
  - set (fu := uniq (map getFlag val)) in *.
    rewrite !includes_filter.
    destruct (includes (Messages.flags m) "\Deleted") eqn:E3;
      destruct (includes fu (getFlag "\Deleted")) eqn:G3;
      destruct (includes (Messages.flags m) "\Seen" && includes fu (getFlag "\Seen")),
        (includes (Messages.flags m) "\Flagged" && includes fu (getFlag "\Flagged")),
        (includes (Messages.flags m) "\Draft" && includes fu (getFlag "\Draft"));
      cbn [orb andb Messages.applySet Messages.setModseq Messages.orElse
           Messages.set_flags Messages.set_searchable Messages.flags
           Messages.searchable];
      rewrite includes_uniq, includes_filter, E3, ?G3; cbn [andb negb];
      try discriminate; intros _; now apply Hm.
Qed.

(** X10. A message that carries \Deleted is never searchable: when this
    holds of every row and row identifiers are unique, it holds of
    every row after [onStore], whatever the action and the outcome. *)
Theorem onStore_deleted_hidden (systemFlags : list string)
    (checkRangeQuery : list Z -> Z -> bool) (env : Env) (mailboxId : ObjectId)
    (update : Update) (session : Session) (w : World)
    (Hids : uniqueIds (w_db w))
    (Hok : Forall deletedHidden (db_Messages (w_db w))) :
  Forall deletedHidden
    (db_Messages
       (w_db (snd (onStore systemFlags checkRangeQuery env mailboxId update session w)))).
Proof.
  destruct (onStore_db systemFlags checkRangeQuery env mailboxId update session w)
    as [->|(mailbox & tx & _ & _ & Htx & ->)]; [exact Hok|].
  apply transaction_inr in Htx as [[_ ->]|(tx0 & nf & _ & Hloop & _ & ->)];
    [exact Hok|].
  rewrite updateMailbox_Messages. apply Forall_forall.
  apply (loop_rows_preserved deletedHidden mailbox update session (w_db w)
           (selectMessages checkRangeQuery mailbox update session (w_db w)) tx0); auto.
  - intros m sw n. apply switch_deletedHidden.
  - now apply Forall_forall.
  - intros m Hm. now apply selectMessages_In in Hm.
Qed.

Section Bounded.
Variable systemFlags : list string.
Variable mailbox : Mailboxes.t.
Variable update : Update.
Variable session : Session.

(** A row is as fetched, or it is a row of the mailbox written with the
    allocated number. *)
Lemma loop_written (db : Db) (msgs : list Messages.t) (tx : Tx) :
  forOf (storeMessage mailbox update session) msgs (mkTx db None [] [] []) = inr tx ->
  forall r, In r (db_Messages (tx_db tx)) ->
    In r (db_Messages db)
    \/ (Messages.modseq r = Mailboxes.modifyIndex mailbox + 1
        /\ Messages.mailbox r = Mailboxes._id mailbox
        /\ newModseq tx = Some (Mailboxes.modifyIndex mailbox + 1)).
Proof.
  intros Hloop.
  cut (loopInv mailbox db tx
       /\ forall r, In r (db_Messages (tx_db tx)) ->
            In r (db_Messages db)
            \/ (Messages.modseq r = Mailboxes.modifyIndex mailbox + 1
                /\ Messages.mailbox r = Mailboxes._id mailbox
                /\ newModseq tx = Some (Mailboxes.modifyIndex mailbox + 1)));
    [tauto|].
  revert Hloop.
  apply (forOf_invariant
           (fun t => loopInv mailbox db t
                     /\ forall r, In r (db_Messages (tx_db t)) ->
                          In r (db_Messages db)
                          \/ (Messages.modseq r = Mailboxes.modifyIndex mailbox + 1
                              /\ Messages.mailbox r = Mailboxes._id mailbox
                              /\ newModseq t = Some (Mailboxes.modifyIndex mailbox + 1)))).
  - split; [apply loopInv_init|]. cbn. auto.
  - intros t x t' _ (Hinv & Hrows) Hb.
    split; [eapply loopInv_step; eauto using storeMessage_stepOf|].
    pose proof (loopInv_getModseq _ _ _ Hinv) as Hnm.
    apply storeMessage_cases in Hb
      as [(_ & ->)|[(_ & _ & ->)|(_ & _ & sw & _ & [(_ & ->)|(_ & ->)])]];
      try exact Hrows.
    rewrite Hnm. cbn [tx_db db_Messages newModseq]. intros r Hr.
    apply updateMessages_In in Hr as [Hr|(r0 & _ & _ & Hmb & _ & _ & ->)].
    + destruct (Hrows r Hr) as [H|(H1 & H2 & _)]; auto.
    + right. cbn. auto.
Qed.

(** The mailbox rows after the vocabulary and counter update. *)
Lemma updateMailbox_rows (tx : Tx) (nf : list string) (mb' : Mailboxes.t) :
  In mb' (db_Mailboxes (tx_db (updateMailbox mailbox tx nf))) ->
  In mb' (db_Mailboxes (tx_db tx))
  \/ exists mb, In mb (db_Mailboxes (tx_db tx))
       /\ Mailboxes._id mb = Mailboxes._id mailbox
       /\ Mailboxes._id mb' = Mailboxes._id mb
       /\ Mailboxes.specialUse mb' = Mailboxes.specialUse mb
       /\ Mailboxes.modifyIndex mb'
          = (if truthyOpt (newModseq tx)
             then Messages.orElse (newModseq tx) 0 else Mailboxes.modifyIndex mb)
       /\ Mailboxes.flags mb'
          = (if nonEmpty nf then uniq (Mailboxes.flags mailbox ++ nf)
             else Mailboxes.flags mb).
Proof.
  unfold updateMailbox. destruct (truthyOpt (newModseq tx) || nonEmpty nf) eqn:Hc;
    [|now left].
  cbn [tx_db db_Mailboxes]. unfold updateMailboxes. rewrite in_map_iff.
  intros (mb & <- & Hin).
  destruct (N.eqb_spec (Mailboxes._id mb) (Mailboxes._id mailbox)) as [Hid|];
    [right|now left].
  exists mb. repeat split; auto; cbn.
  - destruct (truthyOpt (newModseq tx)) eqn:Ht; [|reflexivity].
    destruct (newModseq tx); [reflexivity|discriminate].
  - now destruct (nonEmpty nf).
Qed.

Lemma updateMailbox_hits (tx : Tx) (nf : list string) (mb' : Mailboxes.t) :
  truthyOpt (newModseq tx) = true ->
  In mb' (db_Mailboxes (tx_db (updateMailbox mailbox tx nf))) ->
  Mailboxes._id mb' = Mailboxes._id mailbox ->
  Some (Mailboxes.modifyIndex mb') = newModseq tx.
Proof.
  intros Ht. unfold updateMailbox. rewrite Ht. cbn [orb tx_db db_Mailboxes].
  unfold updateMailboxes. rewrite in_map_iff. intros (mb & <- & Hin).
  destruct (N.eqb_spec (Mailboxes._id mb) (Mailboxes._id mailbox)) as [Hid|Hid].
  - intros _. cbn. now destruct (newModseq tx).
  - intros H. now destruct Hid.
Qed.

Lemma transaction_bounded (db : Db) (msgs : list Messages.t) (tx : Tx) :
  modseqBounded db -> uniqueMailboxIds db ->
  In mailbox (db_Mailboxes db) ->
  0 <= Mailboxes.modifyIndex mailbox ->
  transaction systemFlags mailbox update session msgs db = inr tx ->
  modseqBounded (tx_db tx).
Proof.
  intros Hb Hu Hin Hmi Htx.
  apply transaction_inr in Htx as [[_ ->]|(tx0 & nf & _ & Hloop & _ & ->)];
    [exact Hb|].
  pose proof (loop_written db msgs tx0 Hloop) as Hrows.
  apply loop_loopInv in Hloop as (Hmbs & Hnew & _ & _).
  assert (Htruthy : truthy (Mailboxes.modifyIndex mailbox + 1) = true).
  { unfold truthy. apply negb_true_iff, Z.eqb_neq. lia. }
  intros mb' m' Hmb' Hm' Hbox. rewrite updateMailbox_Messages in Hm'.
  destruct (Hrows m' Hm') as [Hold|(Hms & Hmbox & Hnm)].
  - apply updateMailbox_rows in Hmb'
      as [Hsame|(mb & Hmb & Hid & Hid' & _ & Hidx & _)].
    + rewrite Hmbs in Hsame. now apply (Hb mb' m').
    + rewrite Hmbs in Hmb.
      assert (mb = mailbox) as -> by (eapply NoDup_map_inj; eauto).
      assert (Hle : Messages.modseq m' <= Mailboxes.modifyIndex mailbox).
      { apply (Hb mailbox m'); auto. congruence. }
      rewrite Hidx.
      destruct Hnew as [(-> & _)|(-> & _)]; cbn [truthyOpt Messages.orElse];
        [lia|]. rewrite Htruthy. lia.
  - assert (Hs : Some (Mailboxes.modifyIndex mb') = newModseq tx0).
    { apply (updateMailbox_hits tx0 nf mb'); auto.
      - rewrite Hnm. exact Htruthy.
      - congruence. }
    rewrite Hnm in Hs. injection Hs as ->. lia.
Qed.
End Bounded.

(** X11. No message gets ahead of its mailbox: when every [modseq] is
    at most the [modifyIndex] of the message's mailbox, mailbox
    identifiers are unique and the counters are not negative, the same
    holds after [onStore], whatever the action and the outcome. *)
Theorem onStore_modseq_bounded (systemFlags : list string)
    (checkRangeQuery : list Z -> Z -> bool) (env : Env) (mailboxId : ObjectId)
    (update : Update) (session : Session) (w : World)
    (Hbound : modseqBounded (w_db w))
    (Huniq : uniqueMailboxIds (w_db w))
    (Hpos : forall mb, In mb (db_Mailboxes (w_db w)) -> 0 <= Mailboxes.modifyIndex mb) :
  modseqBounded
    (w_db (snd (onStore systemFlags checkRangeQuery env mailboxId update session w))).
Proof.
  destruct (onStore_db systemFlags checkRangeQuery env mailboxId update session w)
    as [->|(mailbox & tx & _ & Hfind & Htx & ->)]; [exact Hbound|].
  assert (Hin : In mailbox (db_Mailboxes (w_db w))).
  { unfold Mailboxes.findOne in Hfind. now apply find_some in Hfind. }
  eapply transaction_bounded; eauto.
Qed.

(* ------------------------------------------------------------------ *)
(** ** The mailbox row                                                 *)
(* ------------------------------------------------------------------ *)

Section MailboxRow.
Variable systemFlags : list string.
Variable mailbox : Mailboxes.t.
Variable update : Update.

(** A flag is only collected while the vocabulary has fewer than 100
    names. *)
Lemma collect_bound (v acc nf : list string) :
  forOf (collectFlag systemFlags mailbox) v acc = inr nf ->
  nf = acc
  \/ (List.length (mailboxFlags systemFlags mailbox) + List.length nf <= 100)%nat.
Proof.
  revert acc. induction v as [|f r IH]; intros acc; cbn [forOf].
  - intros H. apply inr_eq in H. now left.
  - unfold collectFlag at 1.
    destruct (Nat.leb_spec 100
                (List.length (mailboxFlags systemFlags mailbox) + List.length acc))
      as [|Hlt]; [discriminate|].
    destruct (negb (includes (mailboxFlags systemFlags mailbox) (getFlag f))).
    + intros H. apply IH in H as [->|H]; [|now right].
      right. rewrite length_app. cbn. lia.
    + apply IH.
Qed.

Lemma mailboxNewFlags_inr (nf : list string) :
  mailboxNewFlags systemFlags mailbox update = inr nf ->
  (forall f, In f nf -> In f (value update) /\ isNewFlag systemFlags mailbox f = true)
  /\ (nf = []
      \/ (List.length (mailboxFlags systemFlags mailbox) + List.length nf <= 100)%nat).
Proof.
  unfold mailboxNewFlags. intros H.
  assert (Hcases : nf = []
                   \/ forOf (collectFlag systemFlags mailbox) (value update) [] = inr nf).
  { destruct (action update); auto. apply inr_eq in H. auto. }
  destruct Hcases as [->|Hc]; [split; [intros f []|now left]|].
  split.
  - apply collect_inr in Hc. cbn [app] in Hc. subst nf.
    intros f Hf. now apply filter_In in Hf.
  - now apply collect_bound in Hc.
Qed.

Lemma updateMailbox_findOne_eq (db : Db) (tx0 : Tx) (nf : list string) :
  db_Mailboxes (tx_db tx0) = db_Mailboxes db ->
  Mailboxes.findOne (db_Mailboxes db) (Mailboxes._id mailbox) = Some mailbox ->
  Mailboxes.findOne (db_Mailboxes (tx_db (updateMailbox mailbox tx0 nf)))
    (Mailboxes._id mailbox)
  = Some (Mailboxes.mk (Mailboxes._id mailbox)
            (if truthyOpt (newModseq tx0) then Messages.orElse (newModseq tx0) 0
             else Mailboxes.modifyIndex mailbox)
            (if nonEmpty nf then uniq (Mailboxes.flags mailbox ++ nf)
             else Mailboxes.flags mailbox)
            (Mailboxes.specialUse mailbox)).
Proof.
  intros Hdb Hfind. unfold updateMailbox.
  destruct (truthyOpt (newModseq tx0)) eqn:Ht; cbn [orb].
  - cbn [tx_db db_Mailboxes]. rewrite Hdb.
    erewrite findOne_updateMailboxes by exact Hfind.
    unfold Mailboxes.applySet. cbn.
    destruct (newModseq tx0); [|discriminate]. now destruct (nonEmpty nf).
  - destruct (nonEmpty nf) eqn:Hn.
    + cbn [tx_db db_Mailboxes]. rewrite Hdb.
      erewrite findOne_updateMailboxes by exact Hfind. reflexivity.
    + rewrite Hdb, Hfind. now destruct mailbox.
Qed.
End MailboxRow.

(** X12. A STORE never loses the mailbox and, for a counter on which
    [modifyIndex + 1] is exact on doubles, moves it by at most one: the
    mailbox row found before [onStore] is found after it, on every
    path, with the same [specialUse] and with [modifyIndex] either
    unchanged or increased by exactly one. *)
Theorem onStore_modifyIndex_step (systemFlags : list string)
    (checkRangeQuery : list Z -> Z -> bool) (env : Env) (mailboxId : ObjectId)
    (update : Update) (session : Session) (w : World) (mailbox : Mailboxes.t)
    (Hfind : Mailboxes.findOne (db_Mailboxes (w_db w)) mailboxId = Some mailbox)
    (Hexact : exactIncrement (Mailboxes.modifyIndex mailbox)) :
  exists mb',
    Mailboxes.findOne
      (db_Mailboxes
         (w_db (snd (onStore systemFlags checkRangeQuery env mailboxId update session w))))
      mailboxId = Some mb'
    /\ Mailboxes.specialUse mb' = Mailboxes.specialUse mailbox
    /\ (Mailboxes.modifyIndex mb' = Mailboxes.modifyIndex mailbox
        \/ Mailboxes.modifyIndex mb' = Mailboxes.modifyIndex mailbox + 1).
Proof.
  destruct (onStore_db systemFlags checkRangeQuery env mailboxId update session w)
    as [->|(mailbox' & tx & _ & Hfind' & Htx & ->)]; [eauto|].
  assert (mailbox' = mailbox) as -> by congruence.
  pose proof (findOne_id _ _ _ Hfind) as Hid. subst mailboxId.
  apply transaction_inr in Htx as [[_ ->]|(tx0 & nf & _ & Hloop & _ & ->)];
    [eauto|].
  apply loop_loopInv in Hloop as (Hdb & Hnew & _ & _).
  rewrite (updateMailbox_findOne_eq mailbox (w_db w) tx0 nf Hdb Hfind).
  eexists. split; [reflexivity|]. cbn. split; [reflexivity|].
  destruct Hnew as [(-> & _)|(-> & _)]; cbn [truthyOpt Messages.orElse]; [now left|].
  destruct (truthy _); auto.
Qed.

(** X13. The vocabulary of the mailbox only grows, by flags of the
    input that it lacked, and stays within the cap: after [onStore], on
    every path, the mailbox row holds every flag it held before, every
    other flag it holds is an input flag that was new, and if the
    system flags and the mailbox's flags numbered at most 100 before
    they do so after. *)
Theorem onStore_vocabulary (systemFlags : list string)
    (checkRangeQuery : list Z -> Z -> bool) (env : Env) (mailboxId : ObjectId)
    (update : Update) (session : Session) (w : World) (mailbox : Mailboxes.t)
    (Hfind : Mailboxes.findOne (db_Mailboxes (w_db w)) mailboxId = Some mailbox) :
  exists mb',
    Mailboxes.findOne
      (db_Mailboxes
         (w_db (snd (onStore systemFlags checkRangeQuery env mailboxId update session w))))
      mailboxId = Some mb'
    /\ (forall f, In f (Mailboxes.flags mailbox) -> In f (Mailboxes.flags mb'))
    /\ (forall f, In f (Mailboxes.flags mb') ->
          In f (Mailboxes.flags mailbox)
          \/ (In f (value update) /\ isNewFlag systemFlags mailbox f = true))
    /\ ((List.length systemFlags + List.length (Mailboxes.flags mailbox) <= 100)%nat ->
        (List.length systemFlags + List.length (Mailboxes.flags mb') <= 100)%nat).
Proof.
  destruct (onStore_db systemFlags checkRangeQuery env mailboxId update session w)
    as [->|(mailbox' & tx & _ & Hfind' & Htx & ->)]; [eauto 6|].
  assert (mailbox' = mailbox) as -> by congruence.
  pose proof (findOne_id _ _ _ Hfind) as Hid. subst mailboxId.
  apply transaction_inr in Htx as [[_ ->]|(tx0 & nf & _ & Hloop & Hnf & ->)];
    [eauto 6|].
  apply loop_loopInv in Hloop as (Hdb & _).
  apply mailboxNewFlags_inr in Hnf as (Hfrom & Hcap).
  rewrite (updateMailbox_findOne_eq mailbox (w_db w) tx0 nf Hdb Hfind).
  eexists. split; [reflexivity|]. cbn [Mailboxes.flags].
  destruct nf as [|g gs]; cbn [nonEmpty]; [auto|].
  split; [|split].
  - intros f Hf. apply uniq_In, in_or_app. now left.
  - intros f Hf. apply uniq_In, in_app_or in Hf as [Hf|Hf]; auto.
  - intros _. destruct Hcap as [Hnil|Hcap]; [discriminate|].
    rewrite mailboxFlags_length in Hcap.
    pose proof (uniq_length (Mailboxes.flags mailbox ++ g :: gs)) as Hle.
    rewrite length_app in Hle. lia.
Qed.

(* ------------------------------------------------------------------ *)
(** ** The remove action and unknown actions                           *)
(* ------------------------------------------------------------------ *)

Lemma updateMailbox_no_flags (mailbox : Mailboxes.t) (tx : Tx) :
  map Mailboxes.flags (db_Mailboxes (tx_db (updateMailbox mailbox tx [])))
  = map Mailboxes.flags (db_Mailboxes (tx_db tx)).
Proof.
  unfold updateMailbox. cbn [nonEmpty]. destruct (_ || _); [|reflexivity].
  cbn [tx_db db_Mailboxes]. unfold updateMailboxes. rewrite map_map.
  apply map_ext. intros r. now destruct (N.eqb _ _).
Qed.

(** X14. A remove is never rejected for capacity and never touches the
    vocabulary: in a local run whose collaborators do not fail, a
    remove command on an existing mailbox is answered with success,
    however many flags the mailbox holds, and the flags of every
    mailbox row are what they were. *)
Theorem remove_never_rejected (systemFlags : list string)
    (checkRangeQuery : list Z -> Z -> bool) (env : Env) (mailboxId : ObjectId)
    (update : Update) (session : Session) (w : World) (mailbox : Mailboxes.t)
    (Hwsp : wsp env = None) (Href : refreshSession env = None)
    (Hacq : acquireLock env = None) (Hfe : findOneError env = None)
    (Hfind : Mailboxes.findOne (db_Mailboxes (w_db w)) mailboxId = Some mailbox)
    (Hprep : prepare env = None) (Hadd : addEntries env = None)
    (Hact : action update = ActRemove) :
  let r := onStore systemFlags checkRangeQuery env mailboxId update session w in
  (exists md ws, fst r = inr (Success true md ws))
  /\ map Mailboxes.flags (db_Mailboxes (w_db (snd r)))
     = map Mailboxes.flags (db_Mailboxes (w_db w)).
Proof.
  cbv zeta.
  assert (Hknown : forall name, action update <> ActOther name)
    by (intros name; rewrite Hact; discriminate).
  destruct (forOf_storeMessage_known_action mailbox update session
              (selectMessages checkRangeQuery mailbox update session (w_db w))
              (mkTx (w_db w) None [] [] []) Hknown) as [tx0 Hloop].
  assert (Htx : exists tx,
             transaction systemFlags mailbox update session
               (selectMessages checkRangeQuery mailbox update session (w_db w)) (w_db w)
             = inr tx
             /\ map Mailboxes.flags (db_Mailboxes (tx_db tx))
                = map Mailboxes.flags (db_Mailboxes (w_db w))).
  { unfold transaction, transactionBody, mailboxNewFlags. rewrite Hloop, Hact.
    destruct (selectMessages checkRangeQuery mailbox update session (w_db w));
      cbn [nonEmpty]; eexists; (split; [reflexivity|]); [reflexivity|].
    rewrite updateMailbox_no_flags.
    apply loop_keys in Hloop as [_ ->]. reflexivity. }
  destruct Htx as (tx & Htx & Hflags).
  destruct (onStore_transaction_commits systemFlags checkRangeQuery env mailboxId
              update session w mailbox Hwsp Href Hacq Hfe Hfind Hprep tx Htx Hadd)
    as [Hr ->].
  split; [eauto|exact Hflags].
Qed.

Lemma loop_unknown_action (mailbox : Mailboxes.t) (update : Update) (session : Session)
    (name : string) (msgs : list Messages.t) :
  action update = ActOther name ->
  (exists m, In m msgs /\ skipped update session m = false /\ guarded update m = false) ->
  forall tx,
    forOf (storeMessage mailbox update session) msgs tx
    = inl (TypeError "Unknown action").
Proof.
  intros Hact. induction msgs as [|x r IH]; intros (m & Hin & Hs & Hg) tx.
  - destruct Hin.
  - cbn [forOf]. unfold storeMessage at 1.
    fold (skipped update session x). fold (guarded update x).
    rewrite Hact. cbn [switchAction].
    destruct (skipped update session x) eqn:Hsx;
      [|destruct (guarded update x) eqn:Hgx; [|reflexivity]];
      apply IH; exists m; (split; [|auto]);
      destruct Hin as [->|Hin]; auto; congruence.
Qed.

(** X15. An action other than set, add and remove is refused as soon
    as a candidate row reaches the switch: in a local run whose
    collaborators do not fail, with a candidate row that is neither
    skipped nor guarded, the callback gets the error "Unknown action"
    and the database is what it was. *)
Theorem unknown_action_rejected (systemFlags : list string)
    (checkRangeQuery : list Z -> Z -> bool) (env : Env) (mailboxId : ObjectId)
    (update : Update) (session : Session) (w : World) (mailbox : Mailboxes.t)
    (name : string) (m : Messages.t)
    (Hwsp : wsp env = None) (Href : refreshSession env = None)
    (Hacq : acquireLock env = None) (Hfe : findOneError env = None)
    (Hfind : Mailboxes.findOne (db_Mailboxes (w_db w)) mailboxId = Some mailbox)
    (Hprep : prepare env = None)
    (Hact : action update = ActOther name)
    (Hin : In m (selectMessages checkRangeQuery mailbox update session (w_db w)))
    (Hs : skipped update session m = false)
    (Hg : guarded update m = false) :
  let r := onStore systemFlags checkRangeQuery env mailboxId update session w in
  fst r = inr (Failure (TypeError "Unknown action"))
  /\ w_db (snd r) = w_db w.
Proof.
  apply (onStore_transaction_throws systemFlags checkRangeQuery env mailboxId update
           session w mailbox); auto.
  unfold transaction, transactionBody.
  rewrite (loop_unknown_action mailbox update session name _ Hact) by eauto.
  destruct (selectMessages checkRangeQuery mailbox update session (w_db w));
    [destruct Hin|reflexivity].
Qed.


(* ------------------------------------------------------------------ *)
(** ** The order of the collaborator calls                             *)
(* ------------------------------------------------------------------ *)

(** A local run that gets as far as the query, call by call. *)
Lemma onStore_local_run (systemFlags : list string)
    (checkRangeQuery : list Z -> Z -> bool) (env : Env) (mailboxId : ObjectId)
    (update : Update) (session : Session) (w : World) (mailbox : Mailboxes.t) :
  wsp env = None -> refreshSession env = None -> acquireLock env = None ->
  findOneError env = None ->
  Mailboxes.findOne (db_Mailboxes (w_db w)) mailboxId = Some mailbox ->
  prepare env = None ->
  let result := transaction systemFlags mailbox update session
                  (selectMessages checkRangeQuery mailbox update session (w_db w))
                  (w_db w) in
  onStore systemFlags checkRangeQuery env mailboxId update session w
  = (inr (fst (afterCleanup env result)),
     mkWorld (match result with inl _ => w_db w | inr tx => tx_db tx end)
             (match releaseLock env with Some _ => true | None => false end)
             (trace w
              ++ [EvRefreshSession; EvAcquireLock; EvFindOne; EvPrepare; EvReleaseLock]
              ++ fatalLog (releaseLock env)
              ++ [EvUpdateStorageUsed]
              ++ fatalLog (updateStorageUsed env)
              ++ snd (afterCleanup env result))).
Proof.
  intros Hwsp Href Hacq Hfe Hfind Hprep result. subst result.
  run_handler. rewrite Hwsp, Href. reduce_world. rewrite Hacq. reduce_world.
  rewrite Hfe, Hfind. reduce_world. rewrite Hprep. reduce_world.
  unfold afterCleanup, respond, fatalLog.
  destruct (transaction systemFlags mailbox update session _ _) as [e|tx];
    reduce_world;
    destruct (releaseLock env), (updateStorageUsed env); reduce_world.
  1-4: destruct e as [r| |]; reduce_world; [destruct (nonEmptyString r)| |];
    reduce_world; cbn [fst snd]; repeat rewrite <- app_assoc; reflexivity.
  all: destruct (nonEmpty (entries tx)); reduce_world;
    [destruct (addEntries env) as [ae|]; reduce_world;
     [destruct ae as [r| |]; reduce_world; [destruct (nonEmptyString r)| |]|]|];
    reduce_world; cbn [fst snd]; repeat rewrite <- app_assoc; reflexivity.
Qed.

(** X16. Once the query is built, on every path -- the transaction
    thrown or committed, the notifier failing or not -- the lock is
    released exactly once, then storage usage is recomputed exactly
    once, each failure of the two being logged on the spot, and only
    then the notifier may be called; when [releaseLock] does not fail
    the lock is not held at the end. *)
Theorem cleanup_runs_once (systemFlags : list string)
    (checkRangeQuery : list Z -> Z -> bool) (env : Env) (mailboxId : ObjectId)
    (update : Update) (session : Session) (w : World) (mailbox : Mailboxes.t)
    (Hwsp : wsp env = None) (Href : refreshSession env = None)
    (Hacq : acquireLock env = None) (Hfe : findOneError env = None)
    (Hfind : Mailboxes.findOne (db_Mailboxes (w_db w)) mailboxId = Some mailbox)
    (Hprep : prepare env = None) :
  let w' := snd (onStore systemFlags checkRangeQuery env mailboxId update session w) in
  exists tail,
    trace w'
    = trace w
      ++ [EvRefreshSession; EvAcquireLock; EvFindOne; EvPrepare]
      ++ EvReleaseLock :: fatalLog (releaseLock env)
      ++ EvUpdateStorageUsed :: fatalLog (updateStorageUsed env)
      ++ tail
    /\ (forall ev, In ev tail ->
          ev <> EvAcquireLock /\ ev <> EvReleaseLock /\ ev <> EvUpdateStorageUsed)
    /\ (releaseLock env = None -> lockHeld w' = false).
Proof.
  cbv zeta.
  rewrite (onStore_local_run systemFlags checkRangeQuery env mailboxId update session
             w mailbox Hwsp Href Hacq Hfe Hfind Hprep).
  cbn [snd trace lockHeld]. eexists. split; [|split].
  - reflexivity.
  - intros ev Hev. unfold afterCleanup, respond in Hev.
    destruct (transaction systemFlags mailbox update session _ _) as [e|tx].
    + destruct e as [r| |]; [destruct (nonEmptyString r)| |]; cbn in Hev;
        repeat (destruct Hev as [<-|Hev]; [repeat split; discriminate|]);
        destruct Hev.
    + destruct (nonEmpty (entries tx));
        [destruct (addEntries env) as [[r| |]|]; [destruct (nonEmptyString r)| | |]|];
        cbn in Hev;
        repeat (destruct Hev as [<-|Hev]; [repeat split; discriminate|]);
        destruct Hev.
  - now intros ->.
Qed.

(** X17. A failure of the notifier comes after the commit: when the
    transaction has committed entries and [addEntries] throws, the
    database keeps what the transaction wrote, the callback does not
    get success but that error, and [fire] is not called. *)
Theorem notifier_failure_after_commit (systemFlags : list string)
    (checkRangeQuery : list Z -> Z -> bool) (env : Env) (mailboxId : ObjectId)
    (update : Update) (session : Session) (w : World) (mailbox : Mailboxes.t)
    (tx : Tx) (e : Err)
    (Hwsp : wsp env = None) (Href : refreshSession env = None)
    (Hacq : acquireLock env = None) (Hfe : findOneError env = None)
    (Hfind : Mailboxes.findOne (db_Mailboxes (w_db w)) mailboxId = Some mailbox)
    (Hprep : prepare env = None)
    (Htx : transaction systemFlags mailbox update session
             (selectMessages checkRangeQuery mailbox update session (w_db w)) (w_db w)
           = inr tx)
    (Hne : entries tx <> [])
    (Hadd : addEntries env = Some e) :
  let r := onStore systemFlags checkRangeQuery env mailboxId update session w in
  w_db (snd r) = tx_db tx
  /\ fst r = inr (fst (respond e))
  /\ (forall ok md ws, fst r <> inr (Success ok md ws))
  /\ (In EvFire (trace (snd r)) -> In EvFire (trace w)).
Proof.
  cbv zeta.
  rewrite (onStore_local_run systemFlags checkRangeQuery env mailboxId update session
             w mailbox Hwsp Href Hacq Hfe Hfind Hprep).
  rewrite Htx. cbn [fst snd w_db trace]. unfold afterCleanup. rewrite Hadd.
  destruct (entries tx) as [|en ens] eqn:Hent; [contradiction|]. cbn [nonEmpty fst snd].
  split; [reflexivity|]. split; [reflexivity|]. split.
  - intros ok md ws. unfold respond.
    destruct e as [r| |]; [destruct (nonEmptyString r)| |]; discriminate.
  - intros Hfire. apply in_app_or in Hfire as [H|H]; [exact H|]. exfalso.
    unfold fatalLog, respond in H.
    destruct (releaseLock env), (updateStorageUsed env);
      destruct e as [r| |]; [destruct (nonEmptyString r)| | |
                             destruct (nonEmptyString r)| | |
                             destruct (nonEmptyString r)| | |
                             destruct (nonEmptyString r)| |];
      cbn in H; repeat (destruct H as [H|H]; [discriminate H|]); exact H.
Qed.

(** X18. Failures of [releaseLock] and of [updateStorageUsed] are
    logged and change nothing else: whatever the two calls do, the
    callback gets the same outcome and the database is the same. *)
Theorem cleanup_failures_do_not_matter (systemFlags : list string)
    (checkRangeQuery : list Z -> Z -> bool) (env : Env) (rl su : option Err)
    (mailboxId : ObjectId) (update : Update) (session : Session) (w : World) :
  fst (onStore systemFlags checkRangeQuery (withCleanup rl su env) mailboxId update
         session w)
  = fst (onStore systemFlags checkRangeQuery env mailboxId update session w)
  /\ w_db (snd (onStore systemFlags checkRangeQuery (withCleanup rl su env) mailboxId
                  update session w))
     = w_db (snd (onStore systemFlags checkRangeQuery env mailboxId update session w)).
Proof.
  run_handler. unfold withCleanup.
  cbn [wsp refreshSession acquireLock findOneError prepare releaseLock
       updateStorageUsed addEntries].
  destruct (wsp env) as [[e|[[b resp] rs]]|]; reduce_world; [auto|auto|].
  destruct (refreshSession env) as [e|]; reduce_world; [auto|].
  destruct (acquireLock env) as [e|]; reduce_world; [auto|].
  destruct (findOneError env) as [e|]; reduce_world; [auto|].
  destruct (Mailboxes.findOne (db_Mailboxes (w_db w)) mailboxId) as [mailbox|];
    reduce_world; [|auto].
  destruct (prepare env) as [e|]; reduce_world; [auto|].
  destruct (transaction systemFlags mailbox update session _ _) as [e|tx];
    reduce_world;
    destruct rl, su, (releaseLock env), (updateStorageUsed env); reduce_world;
    try (destruct e as [r| |]; reduce_world; [destruct (nonEmptyString r)| |];
         reduce_world; split; reflexivity);
    (destruct (nonEmpty (entries tx)); reduce_world;
     [destruct (addEntries env) as [ae|]; reduce_world;
      [destruct ae as [r| |]; reduce_world; [destruct (nonEmptyString r)| |]|]|];
     reduce_world; split; reflexivity).
Qed.

(** X19. With a remote worker the command is not run here: the reply
    is relayed -- each response written in order, then the callback
    called with the worker's answer, or with the error of the request
    -- and neither the database nor the lock is touched, no local
    collaborator being called. *)
Theorem delegated_run (systemFlags : list string)
    (checkRangeQuery : list Z -> Z -> bool) (env : Env) (mailboxId : ObjectId)
    (update : Update) (session : Session) (w : World)
    (remote : Err + (bool * list Z * list Response))
    (Hwsp : wsp env = Some remote) :
  onStore systemFlags checkRangeQuery env mailboxId update session w
  = (inr (match remote with
          | inl e => Failure e
          | inr (b, response, _) => Delegated b response
          end),
     mkWorld (w_db w) (lockHeld w)
       (trace w ++ EvRequest :: match remote with
                                | inl _ => []
                                | inr (_, _, ws) => map EvWrite ws
                                end)).
Proof.
  run_handler. rewrite Hwsp. destruct remote as [e|[[b resp] rs]]; reduce_world;
    [reflexivity|].
  pose proof (forEach_emit EvWrite rs) as Hws. unfold emit in Hws.
  rewrite Hws. reduce_world. now rewrite <- app_assoc.
Qed.

(** X20. A failure of the session refresh, or of the lock acquisition,
    ends the command at once: the lock state and the database are what
    they were, the mailbox is not looked up, nothing is released, and
    the callback gets that error. *)
Theorem early_failure_stops (systemFlags : list string)
    (checkRangeQuery : list Z -> Z -> bool) (env : Env) (mailboxId : ObjectId)
    (update : Update) (session : Session) (w : World) (e : Err)
    (Hwsp : wsp env = None)
    (Hfail : refreshSession env = Some e
             \/ (refreshSession env = None /\ acquireLock env = Some e)) :
  let r := onStore systemFlags checkRangeQuery env mailboxId update session w in
  fst r = inr (fst (respond e))
  /\ w_db (snd r) = w_db w
  /\ lockHeld (snd r) = lockHeld w
  /\ trace (snd r)
     = trace w
       ++ (EvRefreshSession
           :: match refreshSession env with Some _ => [] | None => [EvAcquireLock] end)
       ++ snd (respond e).
Proof.
  cbv zeta. run_handler. rewrite Hwsp. unfold respond.
  destruct Hfail as [Href|[Href Hacq]]; rewrite Href; reduce_world;
    [|rewrite Hacq; reduce_world];
    (destruct e as [r| |]; reduce_world; [destruct (nonEmptyString r)| |];
     reduce_world; cbn [fst snd]; repeat rewrite <- app_assoc; auto).
Qed.


(* ------------------------------------------------------------------ *)
(** ** Instances                                                       *)
(* ------------------------------------------------------------------ *)

Ltac sample_unique :=
  cbn; repeat (constructor; [cbn; intuition discriminate|]); constructor.

Ltac sample_bounded :=
  intros mb m [<-|[]] Hm _; cbn in Hm;
  repeat (destruct Hm as [<-|Hm]; [cbn; lia|]); destruct Hm.

Lemma onStore_guard_protects_witness :
  In (Sample.row 11%N 1%N 2 [] 4)
     (db_Messages
        (w_db (snd (onStore Sample.systemFlags Sample.checkRangeQuery Sample.env 1%N
                      Scenario.addSeenUnchangedSince3 Sample.session Sample.world)))).
Proof.
  apply (onStore_guard_protects Sample.systemFlags Sample.checkRangeQuery Sample.env 1%N
           Scenario.addSeenUnchangedSince3 Sample.session Sample.world 3).
  - reflexivity.
  - lia.
  - unfold uniqueIds. sample_unique.
  - cbn. right. left. reflexivity.
  - cbn. lia.
Defined.

Lemma onStore_modified_witness :
  [2] = map Messages.uid
          (filter (fun m => negb (skipped Scenario.addSeenUnchangedSince3 Sample.session m)
                            && guarded Scenario.addSeenUnchangedSince3 m)
             (selectMessages Sample.checkRangeQuery Sample.inbox
                Scenario.addSeenUnchangedSince3 Sample.session (w_db Sample.world)))
  /\ (truthyOpt (unchangedSince Scenario.addSeenUnchangedSince3) = false -> [2] = []).
Proof.
  apply (onStore_modified Sample.systemFlags Sample.checkRangeQuery Sample.env 1%N
           Scenario.addSeenUnchangedSince3 Sample.session Sample.world Sample.inbox
           true [2] [mkResponse 1 (Some 1) ["\Seen"] None]).
  - reflexivity.
  - reflexivity.
Defined.

Lemma onStore_responses_witness :
  let ws := [mkResponse 1 (Some 1) ["\Seen"] None;
             mkResponse 2 (Some 2) ["\Seen"] None] in
  let w' := snd (onStore Sample.systemFlags Sample.checkRangeQuery Sample.env 1%N
                   Sample.addSeen Sample.session Sample.world) in
  (silent Sample.addSeen = true -> condstoreEnabled Sample.session = false -> ws = [])
  /\ (forall r, In r ws ->
        resp_uid r = (if isUid Sample.addSeen then Some (resp_seq r) else None)
        /\ resp_modseq r = (if condstoreEnabled Sample.session
                            then Some (Mailboxes.modifyIndex Sample.inbox + 1)
                            else None))
  /\ (negb (silent Sample.addSeen) || condstoreEnabled Sample.session = true ->
      forall es, In (EvAddEntries es) (trace w') ->
        In (EvAddEntries es) (trace Sample.world)
        \/ map (fun e => (entry_uid e, entry_flags e)) es
           = map (fun r => (resp_seq r, resp_flags r)) ws).
Proof.
  apply (onStore_responses Sample.systemFlags Sample.checkRangeQuery Sample.env 1%N
           Sample.addSeen Sample.session Sample.world Sample.inbox true []).
  - reflexivity.
  - unfold exactIncrement. cbn. lia.
  - reflexivity.
Defined.

(** UID 1 carries \Deleted before the command and UID 2 receives it:
    both are hidden afterwards. *)
Lemma onStore_deleted_hidden_witness :
  let rows := db_Messages
                (w_db (snd (onStore Sample.systemFlags Sample.checkRangeQuery
                              Sample.env 1%N Scenario.addDeleted Sample.session
                              (mkWorld Scenario.dbDeleted false [])))) in
  map (fun r => (Messages.flags r, Messages.searchable r))
    (db_Messages Scenario.dbDeleted)
  = [(["\Deleted"], false); ([], true); ([], true)]
  /\ map (fun r => (Messages.flags r, Messages.searchable r)) rows
     = [(["\Deleted"], false); (["\Deleted"], false); ([], true)]
  /\ Forall deletedHidden rows.
Proof.
  split; [reflexivity|split; [reflexivity|]].
  apply (onStore_deleted_hidden Sample.systemFlags Sample.checkRangeQuery Sample.env
           1%N Scenario.addDeleted Sample.session (mkWorld Scenario.dbDeleted false [])).
  - unfold uniqueIds. sample_unique.
  - cbn. repeat constructor; intros H; first [reflexivity | discriminate H].
Defined.

Lemma onStore_modseq_bounded_witness :
  modseqBounded
    (w_db (snd (onStore Sample.systemFlags Sample.checkRangeQuery Sample.env 1%N
                  Sample.addSeen Sample.session Sample.world))).
Proof.
  apply onStore_modseq_bounded.
  - sample_bounded.
  - unfold uniqueMailboxIds. sample_unique.
  - intros mb [<-|[]]. cbn. lia.
Defined.

Lemma onStore_modifyIndex_step_witness :
  exists mb',
    Mailboxes.findOne
      (db_Mailboxes
         (w_db (snd (onStore Sample.systemFlags Sample.checkRangeQuery Sample.env 1%N
                       Sample.addSeen Sample.session Sample.world))))
      1%N = Some mb'
    /\ Mailboxes.specialUse mb' = Mailboxes.specialUse Sample.inbox
    /\ (Mailboxes.modifyIndex mb' = Mailboxes.modifyIndex Sample.inbox
        \/ Mailboxes.modifyIndex mb' = Mailboxes.modifyIndex Sample.inbox + 1).
Proof.
  apply (onStore_modifyIndex_step Sample.systemFlags Sample.checkRangeQuery Sample.env
           1%N Sample.addSeen Sample.session Sample.world Sample.inbox).
  - reflexivity.
  - unfold exactIncrement. cbn. lia.
Defined.

Lemma onStore_vocabulary_witness :
  exists mb',
    Mailboxes.findOne
      (db_Mailboxes
         (w_db (snd (onStore Sample.systemFlags Sample.checkRangeQuery Sample.env 1%N
                       Sample.addFresh Sample.session (mkWorld Sample.dbFresh false [])))))
      1%N = Some mb'
    /\ (forall f, In f (Mailboxes.flags Sample.inbox) -> In f (Mailboxes.flags mb'))
    /\ (forall f, In f (Mailboxes.flags mb') ->
          In f (Mailboxes.flags Sample.inbox)
          \/ (In f (value Sample.addFresh)
              /\ isNewFlag Sample.systemFlags Sample.inbox f = true))
    /\ ((List.length Sample.systemFlags + List.length (Mailboxes.flags Sample.inbox)
         <= 100)%nat ->
        (List.length Sample.systemFlags + List.length (Mailboxes.flags mb') <= 100)%nat).
Proof.
  apply (onStore_vocabulary Sample.systemFlags Sample.checkRangeQuery Sample.env
           1%N Sample.addFresh Sample.session (mkWorld Sample.dbFresh false [])
           Sample.inbox).
  reflexivity.
Defined.

Lemma remove_never_rejected_witness :
  let r := onStore Sample.systemFlags Sample.checkRangeQuery Sample.env 1%N
             Scenario.removeSeen Sample.session (mkWorld Sample.dbSeen false []) in
  (exists md ws, fst r = inr (Success true md ws))
  /\ map Mailboxes.flags (db_Mailboxes (w_db (snd r)))
     = map Mailboxes.flags (db_Mailboxes (w_db (mkWorld Sample.dbSeen false []))).
Proof.
  apply (remove_never_rejected Sample.systemFlags Sample.checkRangeQuery Sample.env
           1%N Scenario.removeSeen Sample.session (mkWorld Sample.dbSeen false [])
           Sample.inbox); reflexivity.
Defined.

Lemma unknown_action_rejected_witness :
  let r := onStore Sample.systemFlags Sample.checkRangeQuery Sample.env 1%N
             Scenario.toggleSeen Sample.session Sample.world in
  fst r = inr (Failure (TypeError "Unknown action"))
  /\ w_db (snd r) = w_db Sample.world.
Proof.
  apply (unknown_action_rejected Sample.systemFlags Sample.checkRangeQuery Sample.env
           1%N Scenario.toggleSeen Sample.session Sample.world Sample.inbox "toggle"
           (Sample.row 10%N 1%N 1 [] 3)); try reflexivity.
  vm_compute. now left.
Defined.

Lemma cleanup_runs_once_witness :
  let w' := snd (onStore Sample.systemFlags Sample.checkRangeQuery Sample.env 1%N
                   Sample.addSeen Sample.session Sample.world) in
  exists tail,
    trace w'
    = trace Sample.world
      ++ [EvRefreshSession; EvAcquireLock; EvFindOne; EvPrepare]
      ++ EvReleaseLock :: fatalLog (releaseLock Sample.env)
      ++ EvUpdateStorageUsed :: fatalLog (updateStorageUsed Sample.env)
      ++ tail
    /\ (forall ev, In ev tail ->
          ev <> EvAcquireLock /\ ev <> EvReleaseLock /\ ev <> EvUpdateStorageUsed)
    /\ (releaseLock Sample.env = None -> lockHeld w' = false).
Proof.
  apply (cleanup_runs_once Sample.systemFlags Sample.checkRangeQuery Sample.env 1%N
           Sample.addSeen Sample.session Sample.world Sample.inbox); reflexivity.
Defined.

Lemma notifier_failure_after_commit_witness :
  let r := onStore Sample.systemFlags Sample.checkRangeQuery Scenario.envNotifierFails
             1%N Sample.addSeen Sample.session Sample.world in
  w_db (snd r) = tx_db Scenario.txAddSeen
  /\ fst r = inr (fst (respond (OtherError "notifier")))
  /\ (forall ok md ws, fst r <> inr (Success ok md ws))
  /\ (In EvFire (trace (snd r)) -> In EvFire (trace Sample.world)).
Proof.
  apply (notifier_failure_after_commit Sample.systemFlags Sample.checkRangeQuery
           Scenario.envNotifierFails 1%N Sample.addSeen Sample.session Sample.world
           Sample.inbox Scenario.txAddSeen (OtherError "notifier")); try reflexivity.
  vm_compute. discriminate.
Defined.

Lemma delegated_run_witness :
  onStore Sample.systemFlags Sample.checkRangeQuery Scenario.envRemote 1%N
    Sample.addSeen Sample.session Sample.world
  = (inr (Delegated true []),
     mkWorld (w_db Sample.world) (lockHeld Sample.world)
       (trace Sample.world
        ++ [EvRequest; EvWrite (mkResponse 1 (Some 1) ["\Seen"] None)])).
Proof.
  apply (delegated_run Sample.systemFlags Sample.checkRangeQuery Scenario.envRemote 1%N
           Sample.addSeen Sample.session Sample.world Scenario.remoteReply).
  reflexivity.
Defined.

Lemma early_failure_stops_witness :
  let r := onStore Sample.systemFlags Sample.checkRangeQuery Scenario.envRefreshFails
             1%N Sample.addSeen Sample.session Sample.world in
  fst r = inr (fst (respond (IMAPError "AUTHENTICATIONFAILED")))
  /\ w_db (snd r) = w_db Sample.world
  /\ lockHeld (snd r) = lockHeld Sample.world
  /\ trace (snd r)
     = trace Sample.world
       ++ (EvRefreshSession
           :: match refreshSession Scenario.envRefreshFails with
              | Some _ => []
              | None => [EvAcquireLock]
              end)
       ++ snd (respond (IMAPError "AUTHENTICATIONFAILED")).
Proof.
  apply (early_failure_stops Sample.systemFlags Sample.checkRangeQuery
           Scenario.envRefreshFails 1%N Sample.addSeen Sample.session Sample.world
           (IMAPError "AUTHENTICATIONFAILED")).
  - reflexivity.
  - left. reflexivity.
Defined.
